(** * GLM-HMM: a shallow embedding of [glmhmm/glm_hmm.py]

    The development follows the Python module method by method:
    numpy arrays are nested lists of binary64 floats, Python slices and
    index expressions keep their wrap-around and their exceptions, and
    the methods of [GLMHMM] run in a state-and-exception monad over the
    object's mutable attributes ([self.pi0], [self.w], [self.phi]).

    The base class [HMM] and the regression package [glm] are not part
    of this file's source; their methods are taken as parameters
    (the [Collaborators] record). *)

From Stdlib Require Import List ZArith Bool Lia PeanoNat.
From Stdlib Require Import Floats.
Import ListNotations.

Set Implicit Arguments.

(** ** Python exceptions and results *)

Inductive exn : Type :=
| ValueError          (* bad shape, empty reduction, negative dimension *)
| IndexError          (* index out of bounds *)
| ZeroDivisionError   (* Python scalar division by zero *)
| OtherError.         (* anything a collaborator may raise besides *)

Inductive result (A : Type) : Type :=
| Ok (a : A)
| Raise (e : exn).

Arguments Ok {A} a.
Arguments Raise {A} e.

Class Monad (T : Type -> Type) : Type := {
  ret : forall {A}, A -> T A;
  bind : forall {A B}, T A -> (A -> T B) -> T B
}.

Declare Scope monad_scope.
Delimit Scope monad_scope with monad.
Notation "x <- m ;; k" := (bind m (fun x => k))
  (at level 61, m at next level, right associativity) : monad_scope.
Notation "' p <- m ;; k" := (bind m (fun x => let p := x in k))
  (at level 61, p pattern, m at next level, right associativity) : monad_scope.
Notation "m ;;; k" := (bind m (fun _ => k))
  (at level 61, right associativity) : monad_scope.
Open Scope monad_scope.

#[global] Instance result_Monad : Monad result := {
  ret := fun A a => Ok a;
  bind := fun A B m f => match m with Ok a => f a | Raise e => Raise e end
}.

Fixpoint mapM {T : Type -> Type} `{Monad T} {A B : Type}
         (f : A -> T B) (l : list A) : T (list B) :=
  match l with
  | [] => ret []
  | a :: l' => b <- f a ;; bs <- mapM f l' ;; ret (b :: bs)
  end.

(** ** numpy arrays as nested lists *)

Definition vec : Type := list float.
Definition mat : Type := list vec.
Definition tens : Type := list mat.

Module Np.

(** [np.zeros(m)], [np.zeros((m, k))], [np.zeros((m, k, c))]. *)
Definition zeros1 (m : nat) : vec := repeat 0%float m.
Definition zeros2 (m k : nat) : mat := repeat (zeros1 k) m.
Definition zeros3 (m k c : nat) : tens := repeat (zeros2 k c) m.

(** A dimension given as a Python int: numpy refuses a negative one. *)
Definition dim (z : Z) : result nat :=
  if (z <? 0)%Z then Raise ValueError else Ok (Z.to_nat z).

(** [a[i]] on the first axis: a negative index counts from the end. *)
Definition wrap (len : nat) (i : Z) : result nat :=
  let l := Z.of_nat len in
  if ((0 <=? i) && (i <? l))%Z then Ok (Z.to_nat i)
  else if ((- l <=? i) && (i <? 0))%Z then Ok (Z.to_nat (i + l))
  else Raise IndexError.

Definition index {A : Type} (l : list A) (i : Z) : result A :=
  j <- wrap (length l) i ;;
  match nth_error l j with
  | Some a => Ok a
  | None => Raise IndexError
  end.

(** Replace position [j] (already in range) of [l]. *)
Fixpoint update {A : Type} (l : list A) (j : nat) (v : A) : list A :=
  match l, j with
  | [], _ => []
  | _ :: t, O => v :: t
  | h :: t, S j' => h :: update t j' v
  end.

(** [a[i] = v]. *)
Definition set_index {A : Type} (l : list A) (i : Z) (v : A) : result (list A) :=
  j <- wrap (length l) i ;; Ok (update l j v).

(** The bounds of the slice [a[lo:hi]] on an axis of length [len]:
    negative bounds count from the end, all bounds are clipped. *)
Definition clip (len : nat) (i : Z) : nat :=
  let l := Z.of_nat len in
  Z.to_nat (if (i <? 0)%Z then Z.max 0 (i + l) else Z.min i l).

Definition slice {A : Type} (l : list A) (lo hi : Z) : list A :=
  let a := clip (length l) lo in
  let b := clip (length l) hi in
  firstn (b - a) (skipn a l).

(** Broadcasting a value along one axis of length [len]: equal
    length, or length one repeated; otherwise numpy raises. *)
Definition broadcast {A : Type} (len : nat) (v : list A) : result (list A) :=
  if length v =? len then Ok v
  else match v with
       | [a] => Ok (repeat a len)
       | _ => Raise ValueError
       end.

Definition broadcast2 {A : Type} (len k : nat) (v : list (list A))
  : result (list (list A)) :=
  rows <- mapM (broadcast k) v ;; broadcast len rows.

(** [a[lo:hi] = v] on a 1-d array, and on a 2-d array with [k] columns:
    the value is broadcast to the slice's shape and written over it. *)
Definition splice {A : Type} (l : list A) (a b : nat) (v : list A) : list A :=
  firstn a l ++ v ++ skipn (a + (b - a)) l.

Definition set_slice {A : Type} (l : list A) (lo hi : Z) (v : list A)
  : result (list A) :=
  let a := clip (length l) lo in
  let b := clip (length l) hi in
  v' <- broadcast (b - a) v ;;
  Ok (splice l a b v').

Definition set_slice2 {A : Type} (k : nat) (l : list (list A)) (lo hi : Z)
           (v : list (list A)) : result (list (list A)) :=
  let a := clip (length l) lo in
  let b := clip (length l) hi in
  v' <- broadcast2 (b - a) k v ;;
  Ok (splice l a b v').

(** [a[:, j]]: column [j] of a 2-d array. *)
Definition column {A : Type} (m : list (list A)) (j : Z) : result (list A) :=
  mapM (fun row => index row j) m.

(** [a.max()] of a 1-d integer array: empty arrays have no maximum. *)
Definition max (y : list Z) : result Z :=
  match y with
  | [] => Raise ValueError
  | h :: t => Ok (fold_left Z.max t h)
  end.

(** [a[np.arange(len(a)), idx] = v]: one column per row. *)
Fixpoint set_each {A : Type} (m : list (list A)) (idx : list Z) (v : A)
  : result (list (list A)) :=
  match m, idx with
  | [], [] => Ok []
  | row :: m', i :: idx' =>
      row' <- set_index row i v ;;
      rest <- set_each m' idx' v ;;
      Ok (row' :: rest)
  | _, _ => Raise IndexError
  end.

End Np.

(** ** The one-hot indicator of [_updateObservations] (lines 117-120)

    Observations are category indices; [y.astype(int)] is the identity
    on an integer-valued array, so [y] is held as a list of integers. *)

Definition astype_int (y : list Z) : list Z := y.

Definition one_hot (y : list Z) : result mat :=
  let yint := astype_int y in
  m <- Np.max yint ;;
  cols <- Np.dim (m + 1) ;;
  let yy := Np.zeros2 (length yint) cols in
  Np.set_each yy yint 1%float.

(** ** The object and its world

    [GLMHMM] holds the attributes the methods read and write.  [self.w]
    is allocated by the base-class constructor; the methods below only
    ever assign into it.  Warnings issued through Python's [warnings]
    machinery are collected in [issued], oldest first. *)

Record GLMHMM : Type := mkGLMHMM {
  self_n : nat;
  self_d : nat;
  self_c : nat;
  self_k : nat;
  self_hessian : bool;
  self_gaussianPrior : float;
  self_pi0 : option vec;
  self_w : tens;
  self_phi : tens
}.

Inductive warning : Type :=
| NonConvergedWarning
| RuntimeWarning.

Record World : Type := mkWorld {
  self : GLMHMM;
  issued : list warning
}.

(** State over exceptions: a raise discards the world. *)
Definition M (A : Type) : Type := World -> result (A * World).

#[global] Instance M_Monad : Monad M := {
  ret := fun A a => fun s => Ok (a, s);
  bind := fun A B m f => fun s =>
            match m s with
            | Ok (a, s') => f a s'
            | Raise e => Raise e
            end
}.

Definition lift {A : Type} (r : result A) : M A :=
  fun s => match r with Ok a => Ok (a, s) | Raise e => Raise e end.

Definition get_self : M GLMHMM := fun s => Ok (self s, s).

Definition put_self (g : GLMHMM) : M unit :=
  fun s => Ok (tt, mkWorld g (issued s)).

Definition warn (x : warning) : M unit :=
  fun s => Ok (tt, mkWorld (self s) (issued s ++ [x])).

Definition set_pi0 (p : option vec) : M unit :=
  g <- get_self ;;
  put_self (mkGLMHMM (self_n g) (self_d g) (self_c g) (self_k g) (self_hessian g)
                     (self_gaussianPrior g) p (self_w g) (self_phi g)).

Definition set_w (w : tens) : M unit :=
  g <- get_self ;;
  put_self (mkGLMHMM (self_n g) (self_d g) (self_c g) (self_k g) (self_hessian g)
                     (self_gaussianPrior g) (self_pi0 g) w (self_phi g)).

Definition set_phi (phi : tens) : M unit :=
  g <- get_self ;;
  put_self (mkGLMHMM (self_n g) (self_d g) (self_c g) (self_k g) (self_hessian g)
                     (self_gaussianPrior g) (self_pi0 g) (self_w g) phi).

(** ** Collaborators

    Methods inherited from [HMM] ([forwardPass], [backwardPass],
    [_updateTransitions], [_updateInitStates]), the per-state regression
    solve [self.glm.fit], the emission model
    [self.glm.observations.compObs] and numpy's elementwise power.
    They are functions of the object and of their arguments and may
    raise.

    numpy's [**] on an array returns the powers entry by entry
    ([power]) and reports the floating-point errors of the whole call
    ([power_errors]: a zero raised to a negative power, an overflow, an
    invalid operand); under numpy's default error state each error
    reported is issued as a [RuntimeWarning]. *)

Inductive fp_error : Type :=
| FpDivide
| FpOverflow
| FpInvalid.

Record Collaborators : Type := mkCollaborators {
  forwardPass :
    GLMHMM -> list Z -> mat -> tens -> option vec -> result (float * mat * vec);
  backwardPass :
    GLMHMM -> list Z -> mat -> tens -> mat -> vec -> result (mat * mat * vec);
  _updateTransitions :
    GLMHMM -> list Z -> mat -> mat -> vec -> mat -> tens -> result mat;
  _updateInitStates : GLMHMM -> mat -> result vec;
  glm_fit :
    mat -> mat -> mat -> bool -> vec -> float -> result (mat * mat);
  compObs : vec -> mat -> result vec;
  power : float -> float -> float;
  power_errors : mat -> float -> list fp_error
}.

(** Shape of a stored matrix, and assignment of a matrix into it. *)
Definition shape2 {A : Type} (m : list (list A)) : nat * nat :=
  (length m, length (hd [] m)).

(** [t[zk, :, :] = v]. *)
Definition set_plane (t : tens) (zk : nat) (v : mat) : result tens :=
  old <- Np.index t (Z.of_nat zk) ;;
  v' <- Np.broadcast2 (fst (shape2 old)) (snd (shape2 old)) v ;;
  Np.set_index t (Z.of_nat zk) v'.

(** [t[:, zk, :] = v] on an array of shape (n, k, c). *)
Fixpoint set_middle (t : tens) (zk : nat) (v : mat) : result tens :=
  match t, v with
  | [], [] => Ok []
  | m :: t', r :: v' =>
      m' <- Np.set_index m (Z.of_nat zk) r ;;
      rest <- set_middle t' zk v' ;;
      Ok (m' :: rest)
  | _, _ => Raise ValueError
  end.

Definition set_column (n c : nat) (t : tens) (zk : nat) (v : mat) : result tens :=
  v' <- Np.broadcast2 n c v ;; set_middle t zk v'.

Section Methods.

Variable co : Collaborators.

(** *** [_updateObservations] (lines 100-128) *)

Definition update_state (x : mat) (w : tens) (yy gammas : mat) (zk : nat)
  : M unit :=
  g <- get_self ;;
  w_zk <- lift (Np.index w (Z.of_nat zk)) ;;
  gam <- lift (Np.column gammas (Z.of_nat zk)) ;;
  '(w_new, phi_new) <-
    lift (glm_fit co x w_zk yy (self_hessian g) gam (self_gaussianPrior g)) ;;
  sw <- lift (set_plane (self_w g) zk w_new) ;;
  set_w sw ;;;
  sphi <- lift (set_column (self_n g) (self_c g) (self_phi g) zk phi_new) ;;
  set_phi sphi.

Fixpoint for_each {A : Type} (body : A -> M unit) (l : list A) : M unit :=
  match l with
  | [] => ret tt
  | a :: l' => body a ;;; for_each body l'
  end.

Definition _updateObservations (y : list Z) (x : mat) (w : tens) (gammas : mat)
  : M (tens * tens) :=
  yy <- lift (one_hot y) ;;
  g <- get_self ;;
  set_phi (Np.zeros3 (self_n g) (self_k g) (self_c g)) ;;;
  for_each (update_state x w yy gammas) (seq 0 (self_k g)) ;;;
  g' <- get_self ;;
  ret (self_w g', self_phi g').

(** *** [_updateParams] (lines 130-158) *)

Definition _updateParams (y : list Z) (x gammas beta alpha : mat) (cs : vec)
           (A : mat) (phi w : tens) (fit_init_states : bool)
  : M (mat * tens * tens * option vec) :=
  g <- get_self ;;
  A' <- lift (_updateTransitions co g y alpha beta cs A phi) ;;
  '(w', phi') <- _updateObservations y x w gammas ;;
  (if fit_init_states
   then g1 <- get_self ;;
        p <- lift (_updateInitStates co g1 gammas) ;;
        set_pi0 (Some p)
   else ret tt) ;;;
  g2 <- get_self ;;
  ret (A', w', phi', self_pi0 g2).

(** *** [fit] (lines 160-233) *)

(** The arrays one E step fills (lines 202-207). *)
Record EStep : Type := mkEStep {
  e_ll : float;
  e_alpha : mat;
  e_beta : mat;
  e_cs : vec;
  e_pBack : mat;
  e_zhatBack : vec
}.

Definition e_init (g : GLMHMM) : EStep :=
  mkEStep 0%float
          (Np.zeros2 (self_n g) (self_k g))
          (Np.zeros2 (self_n g) (self_k g))
          (Np.zeros1 (self_n g))
          (Np.zeros2 (self_n g) (self_k g))
          (Np.zeros1 (self_n g)).

(** [sess[s], sess[s+1]] for [s] in [range(len(sess) - 1)]. *)
Definition boundaries (sess : list Z) : list (Z * Z) :=
  combine sess (tl sess).

(** The body of the loop over sessions (lines 210-219). *)
Definition session_step (y : list Z) (A : mat) (phi : tens) (pi0 : option vec)
           (B : float) (e : EStep) (lohi : Z * Z) : M EStep :=
  let (lo, hi) := lohi in
  g <- get_self ;;
  '(ll_s, alpha_s, cs_s) <-
    lift (forwardPass co g (Np.slice y lo hi) A (Np.slice phi lo hi) pi0) ;;
  '(pBack_s, beta_s, zhatBack_s) <-
    lift (backwardPass co g (Np.slice y lo hi) A (Np.slice phi lo hi)
                       alpha_s cs_s) ;;
  let ll := (e_ll e + ll_s)%float in
  alpha <- lift (Np.set_slice2 (self_k g) (e_alpha e) lo hi alpha_s) ;;
  cs <- lift (Np.set_slice (e_cs e) lo hi cs_s) ;;
  for_each (fun _ => warn RuntimeWarning) (power_errors co pBack_s B) ;;;
  pBack <- lift (Np.set_slice2 (self_k g) (e_pBack e) lo hi
                   (map (map (fun p => power co p B)) pBack_s)) ;;
  beta <- lift (Np.set_slice2 (self_k g) (e_beta e) lo hi beta_s) ;;
  zhatBack <- lift (Np.set_slice (e_zhatBack e) lo hi zhatBack_s) ;;
  ret (mkEStep ll alpha beta cs pBack zhatBack).

Fixpoint fold_sessions (step : EStep -> Z * Z -> M EStep)
         (l : list (Z * Z)) (e : EStep) : M EStep :=
  match l with
  | [] => ret e
  | s :: l' => e' <- step e s ;; fold_sessions step l' e'
  end.

Definition E_step (y : list Z) (A : mat) (phi : tens) (pi0 : option vec)
           (sess : list Z) (B : float) : M EStep :=
  g <- get_self ;;
  fold_sessions (session_step y A phi pi0 B) (boundaries sess) (e_init g).

(** The local variables of [fit] that live across iterations; [l_n]
    is the loop variable, unbound until the first iteration. *)
Record Locals : Type := mkLocals {
  l_lls : vec;
  l_A : mat;
  l_w : tens;
  l_phi : tens;
  l_pi0 : option vec;
  l_n : option nat
}.

(** Lines 190-194: [phi[i, zi, :] = compObs(x[i, :], w[zi, :, :])]. *)
Definition initial_phi (g : GLMHMM) (x : mat) (w : tens) : result tens :=
  mapM (fun i =>
          mapM (fun zi =>
                  x_i <- Np.index x (Z.of_nat i) ;;
                  w_zi <- Np.index w (Z.of_nat zi) ;;
                  p <- compObs co x_i w_zi ;;
                  Np.broadcast (self_c g) p)
               (seq 0 (self_k g)))
       (seq 0 (self_n g)).

(** Lines 201-225 and 229 of one pass through the loop body, at loop
    index [n]; returns the new locals and this iteration's [ll]. *)
Definition em_iteration (y : list Z) (x : mat) (fit_init_states : bool)
           (sess : list Z) (B : float) (n : nat) (st : Locals)
  : M (Locals * float) :=
  e <- E_step y (l_A st) (l_phi st) (l_pi0 st) sess B ;;
  let ll := e_ll e in
  lls <- lift (Np.set_index (l_lls st) (Z.of_nat n) ll) ;;
  '(A, w, phi, pi0) <-
    _updateParams y x (e_pBack e) (e_beta e) (e_alpha e) (e_cs e)
                  (l_A st) (l_phi st) (l_w st) fit_init_states ;;
  lls' <- lift (Np.set_index lls (Z.of_nat n) ll) ;;
  ret (mkLocals lls' A w phi pi0 (Some n), ll).

(** Line 230: [n > 5 and lls[n-5] + tol >= ll]. *)
Definition converged (tol : float) (n : nat) (lls : vec) (ll : float)
  : result bool :=
  if 5 <? n
  then past <- Np.index lls (Z.of_nat n - 5) ;; Ok (ll <=? past + tol)%float
  else Ok false.

(** [for n in range(maxiter)]: [todo] iterations remain, the next has
    index [n]. *)
Fixpoint em_loop (y : list Z) (x : mat) (fit_init_states : bool)
         (tol : float) (sess : list Z) (B : float)
         (todo n : nat) (st : Locals) : M Locals :=
  match todo with
  | O => ret st
  | S todo' =>
      '(st', ll) <- em_iteration y x fit_init_states sess B n st ;;
      stop <- lift (converged tol n (l_lls st') ll) ;;
      if (stop : bool) then ret st'
      else em_loop y x fit_init_states tol sess B todo' (S n) st'
  end.

(** The state of the locals when the loop is entered (lines 184-197). *)
Definition fit_enter (x : mat) (A : mat) (w : tens) (pi0 : option vec)
           (maxiter : Z) : M Locals :=
  m <- lift (Np.dim maxiter) ;;
  let lls := repeat nan m in
  set_pi0 pi0 ;;;
  g <- get_self ;;
  phi <- lift (initial_phi g x w) ;;
  ret (mkLocals lls A w phi pi0 None).

Definition sessions_of (g : GLMHMM) (sess : option (list Z)) : list Z :=
  match sess with
  | None => [0%Z; Z.of_nat (self_n g)]
  | Some s => s
  end.

(** The locals of [fit] when it reaches its [return]. *)
Definition fit_locals (y : list Z) (x : mat) (A : mat) (w : tens)
           (pi0 : option vec) (fit_init_states : bool) (maxiter : Z)
           (tol : float) (sess : option (list Z)) (B : float) : M Locals :=
  st <- fit_enter x A w pi0 maxiter ;;
  g <- get_self ;;
  em_loop y x fit_init_states tol (sessions_of g sess) B
          (Z.to_nat maxiter) 0 st.

Definition fit (y : list Z) (x : mat) (A : mat) (w : tens)
           (pi0 : option vec) (fit_init_states : bool) (maxiter : Z)
           (tol : float) (sess : option (list Z)) (B : float)
  : M (vec * mat * tens * option vec) :=
  st <- fit_locals y x A w pi0 fit_init_states maxiter tol sess B ;;
  ret (l_lls st, l_A st, l_w st, l_pi0 st).

End Methods.

(** ** [computeVariance] (lines 235-311)

    The objective [logLikelihood] and the flattening of [(A, w)] that
    feeds it.  The Hessian (automatic differentiation) and its inverse
    are computed by [autograd] and [numpy.linalg] from this objective
    and are outside this file.

    What numpy, the C library and the interpreter compute with a
    rounding or an order of accumulation of their own is a parameter:
    [exp] and [log]; the quotient of two Python ints (non-zero divisor);
    the sum of a 1-d array or of one row along the last axis ([np_sum],
    which numpy accumulates pairwise on long rows) and the sum of all
    entries of a 3-d array ([np_sum3]); the entries of the matrix
    product [x @ w] and of [dot(v, A)] (computed by the linear-algebra
    backend); and the square [w ** 2] entry by entry.  Subtraction,
    multiplication and division of two floats are those of binary64.

    An array with no rows has no column count as a nested list; the
    input [x] with no rows is read as an array of shape (0, d). *)

Record Numerics : Type := mkNumerics {
  np_exp : float -> float;
  np_log : float -> float;
  int_true_div : Z -> Z -> float;
  np_sum : vec -> float;
  np_sum3 : tens -> float;
  np_matmul : mat -> mat -> nat -> nat -> float;   (* entry (i, j) of x @ w *)
  np_dot : vec -> mat -> nat -> float;             (* entry j of dot(v, A) *)
  np_square : float -> float
}.

Module Npa.

(** The shape a [reshape] to [dims] gives an array of [size] entries:
    one dimension may be -1 and is then inferred. *)
Definition known (dims : list Z) : Z :=
  fold_left Z.mul (filter (fun z => 0 <=? z)%Z dims) 1%Z.

Definition resolve (dims : list Z) (size : nat) : result (list nat) :=
  let neg := filter (fun z => z <? 0)%Z dims in
  let p := known dims in
  match neg with
  | [] => if (p =? Z.of_nat size)%Z then Ok (map Z.to_nat dims)
          else Raise ValueError
  | [(-1)%Z] =>
      if (p =? 0)%Z then Raise ValueError
      else if (Z.of_nat size mod p =? 0)%Z
           then Ok (map (fun z => if (z <? 0)%Z
                                  then Z.to_nat (Z.of_nat size / p)
                                  else Z.to_nat z) dims)
           else Raise ValueError
  | _ => Raise ValueError
  end.

Fixpoint chunks {A : Type} (len count : nat) (l : list A) : list (list A) :=
  match count with
  | O => []
  | S count' => firstn len l :: chunks len count' (skipn len l)
  end.

Definition reshape2 (v : vec) (r c : Z) : result mat :=
  s <- resolve [r; c] (length v) ;;
  match s with
  | [r'; c'] => Ok (chunks c' r' v)
  | _ => Raise ValueError
  end.

Definition reshape3 (v : vec) (k d c : Z) : result tens :=
  s <- resolve [k; d; c] (length v) ;;
  match s with
  | [k'; d'; c'] => Ok (map (chunks c' d') (chunks (d' * c') k' v))
  | _ => Raise ValueError
  end.

End Npa.

Section Variance.

Variable nu : Numerics.
Variable g : GLMHMM.
Variable gaussPrior : Z.

Let k : Z := Z.of_nat (self_k g).
Let d : Z := Z.of_nat (self_d g).
Let c : Z := Z.of_nat (self_c g).

(** [sum(m, axis=1)]: one sum per row. *)
Definition sum_axis1 (m : mat) : vec := map (np_sum nu) m.

(** [x @ w] for [w] of shape (d', c'): every row of [x] must have [d']
    entries; the product has one row per row of [x] and [c'] columns. *)
Definition matmul (x : mat) (d' c' : nat) (w : mat) : result mat :=
  if forallb (fun row => length row =? d') x
  then Ok (map (fun i => map (fun j => np_matmul nu x w i j) (seq 0 c'))
               (seq 0 (length x)))
  else Raise ValueError.

(** [dot(v, A)] for a vector and a matrix: one entry per column. *)
Definition vecmat (v : vec) (A : mat) : vec :=
  map (fun j => np_dot nu v A j) (seq 0 (length (hd [] A))).

(** Lines 258-261: the transition matrix back from the flat vector. *)
Definition unflatten_A (params_flat : vec) : result mat :=
  let A := Np.slice params_flat 0 (k * (k - 1)) in
  A <- Npa.reshape2 A k (k - 1) ;;
  let A_last := map (fun s => (1 - s)%float) (sum_axis1 A) in
  Ok (map (fun p => fst p ++ [snd p]) (combine A A_last)).

(** Lines 264-265: the weights back from the flat vector. *)
Definition unflatten_w (params_flat : vec) : result tens :=
  let w := Np.slice params_flat (k * (k - 1))
                    (Z.of_nat (length params_flat)) in
  Npa.reshape3 w k d (c - 1).

(** Lines 269-274: one state's emission probabilities.  The reshape of
    line 270 fixes the shape (d', c') of the state's weights, whatever
    the number of rows. *)
Definition state_phi (x : mat) (w_zi : mat) : result mat :=
  shape <- Npa.resolve [d; (c - 1)%Z] (length (concat w_zi)) ;;
  match shape with
  | [d'; c'] =>
      let w_new := Npa.chunks c' d' (concat w_zi) in
      xw <- matmul x d' c' w_new ;;
      let p := map (map (np_exp nu)) xw in
      let p := map (fun row => row ++ [1%float]) p in
      let norm := sum_axis1 p in
      Ok (map (fun rn => map (fun v => (v / snd rn)%float) (fst rn))
              (combine p norm))
  | _ => Raise ValueError
  end.

(** [phi[:, i, int(y[i])]]. *)
Definition emission (phi : tens) (y : list Z) (i : nat) : result vec :=
  y_i <- Np.index y (Z.of_nat i) ;;
  mapM (fun phi_z => row <- Np.index phi_z (Z.of_nat i) ;; Np.index row y_i)
       phi.

(** Lines 287-291: the forward recursion from time bin [i], with
    [todo] bins left; [aa] is the previous filtered distribution and
    [cs] collects the normalizers. *)
Fixpoint forward (A : mat) (phi : tens) (y : list Z)
         (todo i : nat) (aa : vec) (cs : vec) : result vec :=
  match todo with
  | O => Ok cs
  | S todo' =>
      let aaprior := vecmat aa A in
      e <- emission phi y i ;;
      let pxz := map (fun p => (fst p * snd p)%float) (combine e aaprior) in
      let cs_i := np_sum nu pxz in
      forward A phi y todo' (S i) (map (fun v => (v / cs_i)%float) pxz)
              (cs ++ [cs_i])
  end.

(** Line 295: the quotient of Python ints [1 / (2 * gaussPrior ** 2)]. *)
Definition prior_scale : result float :=
  let den := (2 * gaussPrior ^ 2)%Z in
  if (den =? 0)%Z then Raise ZeroDivisionError
  else Ok (int_true_div nu 1 den).

Definition logLikelihood (params_flat : vec) (y : list Z) (x : mat)
  : result float :=
  A <- unflatten_A params_flat ;;
  w <- unflatten_w params_flat ;;
  phi <- mapM (state_phi x) w ;;
  pxz <- emission phi y 0 ;;
  let cs0 := np_sum nu pxz in
  let aa0 := map (fun v => (v / cs0)%float) pxz in
  cs <- forward A phi y (self_n g - 1) 1 aa0 [cs0] ;;
  let nll := (- np_sum nu (map (np_log nu) cs))%float in
  scale <- prior_scale ;;
  Ok (nll + scale * np_sum3 nu (map (map (map (np_square nu))) w))%float.

(** Lines 298-300: the flat parameter vector. *)
Definition A_flat (A : mat) : vec :=
  concat (map (fun row => Np.slice row 0 (k - 1)) A).

Definition w_flat (w : tens) : vec := concat (concat w).

Definition params_flat (A : mat) (w : tens) : vec := A_flat A ++ w_flat w.

(** Line 303: the function handed to [hessian], at the fitted point. *)
Definition opt_log (x : mat) (y : list Z) (A : mat) (w : tens) : result float :=
  logLikelihood (params_flat A w) y x.

End Variance.

(** ** Specification vocabulary *)

(** The warnings issued from [s] to [s'] are numpy's: [issued] grew by
    [RuntimeWarning]s only. *)
Definition only_runtime_warnings (s s' : World) : Prop :=
  exists ws,
    issued s' = issued s ++ ws /\ Forall (fun x => x = RuntimeWarning) ws.

(** What a pass through the loop may change of the world: [self.w],
    [self.phi] and, when [keep_pi0] is false, [self.pi0]; never the
    dimensions or the configuration; and it issues numpy's warnings
    only. *)
Definition frame (keep_pi0 : bool) (s s' : World) : Prop :=
  only_runtime_warnings s s' /\
  self_n (self s') = self_n (self s) /\
  self_d (self s') = self_d (self s) /\
  self_c (self s') = self_c (self s) /\
  self_k (self s') = self_k (self s) /\
  self_hessian (self s') = self_hessian (self s) /\
  self_gaussianPrior (self s') = self_gaussianPrior (self s) /\
  (keep_pi0 = true -> self_pi0 (self s') = self_pi0 (self s)).

(** ** The run of [fit], iteration by iteration *)

(** How many times the loop body ran, read off the loop variable. *)
Definition iterations (st : Locals) : nat :=
  match l_n st with
  | None => 0
  | Some n => S n
  end.

(** The test of line 230 on a recorded trace, at iteration [n]. *)
Definition stop_rule (tol : float) (lls : vec) (n : nat) : bool :=
  (5 <? n) && (nth n lls nan <=? nth (n - 5) lls nan + tol)%float.

(** The locals after [j] passes through the loop body from index [n],
    the convergence test left aside. *)
Fixpoint em_states (co : Collaborators) (y : list Z) (x : mat)
         (fit_init_states : bool) (sess : list Z) (B : float)
         (j n : nat) (st : Locals) : M Locals :=
  match j with
  | O => ret st
  | S j' =>
      '(st', _) <- em_iteration co y x fit_init_states sess B n st ;;
      em_states co y x fit_init_states sess B j' (S n) st'
  end.

(** ** Sessions *)

(** The two collaborator calls of one session (lines 210-211), on that
    session's slices of [y] and [phi]: what the session contributes
    before it is written into the full-length arrays. *)
Definition session_pass (co : Collaborators) (g : GLMHMM) (y : list Z)
           (A : mat) (phi : tens) (pi0 : option vec) (lohi : Z * Z)
  : result EStep :=
  let (lo, hi) := lohi in
  '(ll_s, alpha_s, cs_s) <-
    forwardPass co g (Np.slice y lo hi) A (Np.slice phi lo hi) pi0 ;;
  '(pBack_s, beta_s, zhatBack_s) <-
    backwardPass co g (Np.slice y lo hi) A (Np.slice phi lo hi) alpha_s cs_s ;;
  Ok (mkEStep ll_s alpha_s beta_s cs_s pBack_s zhatBack_s).

(** The full-length arrays [e] hold, on the index range of a session,
    what that session's pass [o] returned (broadcast to the range as
    numpy assignment does), the posteriors raised to the power [B]. *)
Definition stitched (co : Collaborators) (k : nat) (B : float) (e : EStep)
           (lohi : Z * Z) (o : EStep) : Prop :=
  let (lo, hi) := lohi in
  let len := Z.to_nat (hi - lo) in
  Np.broadcast2 len k (e_alpha o) = Ok (Np.slice (e_alpha e) lo hi) /\
  Np.broadcast len (e_cs o) = Ok (Np.slice (e_cs e) lo hi) /\
  Np.broadcast2 len k (map (map (fun p => power co p B)) (e_pBack o))
  = Ok (Np.slice (e_pBack e) lo hi) /\
  Np.broadcast2 len k (e_beta o) = Ok (Np.slice (e_beta e) lo hi) /\
  Np.broadcast len (e_zhatBack o) = Ok (Np.slice (e_zhatBack e) lo hi).

(** Session boundaries that go up from [lo] and stay within [n]. *)
Fixpoint ascending (lo : Z) (sess : list Z) (n : Z) : Prop :=
  match sess with
  | [] => True
  | b :: rest => (lo <= b <= n)%Z /\ ascending b rest n
  end.

(** The same for the pairs the loop over sessions visits. *)
Fixpoint chained (base : Z) (pairs : list (Z * Z)) (n : Z) : Prop :=
  match pairs with
  | [] => True
  | (lo, hi) :: rest => (base <= lo <= hi)%Z /\ (hi <= n)%Z /\ chained hi rest n
  end.

(** Every full-length array of [e] has [n] rows. *)
Definition full_length (n : nat) (e : EStep) : Prop :=
  length (e_alpha e) = n /\ length (e_cs e) = n /\ length (e_pBack e) = n /\
  length (e_beta e) = n /\ length (e_zhatBack e) = n.

(** [e] and [e'] agree on the first [c] rows of every array. *)
Definition same_below (c : nat) (e e' : EStep) : Prop :=
  firstn c (e_alpha e') = firstn c (e_alpha e) /\
  firstn c (e_cs e') = firstn c (e_cs e) /\
  firstn c (e_pBack e') = firstn c (e_pBack e) /\
  firstn c (e_beta e') = firstn c (e_beta e) /\
  firstn c (e_zhatBack e') = firstn c (e_zhatBack e).

(** The rows [lo:hi] of the responsibilities [gammas] hold [posterior]
    (broadcast to the range as numpy assignment does). *)
Definition handed_over (k : nat) (gammas : mat) (lohi : Z * Z) (posterior : mat)
  : Prop :=
  let (lo, hi) := lohi in
  Np.broadcast2 (Z.to_nat (hi - lo)) k posterior = Ok (Np.slice gammas lo hi).

(** ** The solves of the M step *)

(** [t[:, zk, :]] row by row ([None] where a row has no entry [zk]). *)
Definition middle (t : tens) (zk : nat) : list (option vec) :=
  map (fun m => nth_error m zk) t.

(** The solve of state [zk] in a call of [_updateObservations] on the
    object [g] with indicator [yy] (line 125): [glm.fit] is called on
    [x], [w[zk,:,:]], [yy], [gammas[:,zk]] and the object's [hessian]
    and [gaussianPrior]; its first result is assigned to
    [self.w[zk,:,:]] and its second to [self.phi[:,zk,:]], each
    broadcast to the shape assigned to; [w'] and [phi'] are the two
    arrays when the method returns. *)
Definition solved_at (co : Collaborators) (x : mat) (w : tens) (gammas yy : mat)
           (g : GLMHMM) (w' phi' : tens) (zk : nat) : Prop :=
  exists (w_zk : mat) (gam : vec) (w_new phi_new old v_w v_phi : mat),
    Np.index w (Z.of_nat zk) = Ok w_zk /\
    Np.column gammas (Z.of_nat zk) = Ok gam /\
    glm_fit co x w_zk yy (self_hessian g) gam (self_gaussianPrior g)
    = Ok (w_new, phi_new) /\
    nth_error (self_w g) zk = Some old /\
    Np.broadcast2 (fst (shape2 old)) (snd (shape2 old)) w_new = Ok v_w /\
    nth_error w' zk = Some v_w /\
    Np.broadcast2 (self_n g) (self_c g) phi_new = Ok v_phi /\
    middle phi' zk = map Some v_phi.

(** ** Stand-in collaborators

    Small instances of the collaborators, used to run [fit] on concrete
    data: with [steady] the log-likelihood never moves, with [climbing]
    and [vanishing] it grows at every iteration. *)

Module Example.

Definition forward (g : GLMHMM) (y : list Z) (A : mat) (phi : tens)
           (pi0 : option vec) : result (float * mat * vec) :=
  Ok (hd 0%float (hd [] A),
      map (fun _ => repeat 0.5%float (self_k g)) y,
      map (fun _ => 1%float) y).

Definition backward (g : GLMHMM) (y : list Z) (A : mat) (phi : tens)
           (alpha : mat) (cs : vec) : result (mat * mat * vec) :=
  Ok (alpha, alpha, cs).

Definition init_states (g : GLMHMM) (gammas : mat) : result vec :=
  Ok (hd [] gammas).

Definition solve (x w yy : mat) (hess : bool) (gam : vec) (prior : float)
  : result (mat * mat) :=
  Ok (w, map (fun _ => repeat 0.5%float (length (hd [] w))) x).

Definition observe (x_i : vec) (w_zi : mat) : result vec :=
  Ok (repeat 0.5%float (length (hd [] w_zi))).

Definition pow (p b : float) : float :=
  if (b =? 1)%float then p
  else if (b =? 2)%float then (p * p)%float
  else if (b =? -1)%float then (1 / p)%float
  else nan.

(** A zero raised to a negative power is reported. *)
Definition pow_errors (m : mat) (b : float) : list fp_error :=
  if (b <? 0)%float && existsb (existsb (fun p => (p =? 0)%float)) m
  then [FpDivide] else [].

(** A backward pass whose posteriors are all zero. *)
Definition backward_zero (g : GLMHMM) (y : list Z) (A : mat) (phi : tens)
           (alpha : mat) (cs : vec) : result (mat * mat * vec) :=
  Ok (map (map (fun _ => 0%float)) alpha, alpha, cs).

Definition steady : Collaborators :=
  mkCollaborators forward backward
                  (fun _ _ _ _ _ A _ => Ok A)
                  init_states solve observe pow pow_errors.

Definition climbing : Collaborators :=
  mkCollaborators forward backward
                  (fun _ _ _ _ _ A _ => Ok (map (map (fun a => (a + 1)%float)) A))
                  init_states solve observe pow pow_errors.

(** [climbing] with all-zero posteriors. *)
Definition vanishing : Collaborators :=
  mkCollaborators forward backward_zero
                  (fun _ _ _ _ _ A _ => Ok (map (map (fun a => (a + 1)%float)) A))
                  init_states solve observe pow pow_errors.

(** Two observations, one regressor, two categories, two states. *)
Definition y : list Z := [0%Z; 1%Z].
Definition x : mat := [[1%float]; [2%float]].
Definition A : mat := [[0.5%float; 0.5%float]; [0.5%float; 0.5%float]].
Definition w : tens := [[[0%float; 0%float]]; [[0%float; 0%float]]].
Definition pi0 : option vec := Some [0.5%float; 0.5%float].
Definition tol : float := 0.125%float.

Definition world : World :=
  mkWorld (mkGLMHMM 2 1 2 2 false 0%float None w []) [].

End Example.

(** ** Shapes *)

(** [A] is a [k] by [k] array, [w] a [k] by [d] by [c] array. *)
Definition square (k : nat) (A : mat) : Prop :=
  length A = k /\ Forall (fun row => length row = k) A.

Definition shaped3 (k d c : nat) (w : tens) : Prop :=
  length w = k /\
  Forall (fun m => length m = d /\ Forall (fun r => length r = c) m) w.

(** The last entry of every row is one minus numpy's sum of the
    others, as [logLikelihood] recomputes it. *)
Definition rows_closed (nu : Numerics) (k : nat) (A : mat) : Prop :=
  Forall (fun row =>
            nth_error row (k - 1)
            = Some (1 - np_sum nu (firstn (k - 1) row))%float) A.

(** Stand-ins for numpy, the C library and the interpreter: a
    first-order [exp], its inverse as [log], the quotient of small
    Python ints, sums and products accumulated left to right (as numpy
    sums fewer than eight entries), and the square as a product. *)
Definition sum_left (v : vec) : float := fold_left PrimFloat.add v 0%float.

Definition dot_left (a b : vec) : float :=
  sum_left (map (fun p => (fst p * snd p)%float) (combine a b)).

Definition column_of (m : mat) (j : nat) : vec :=
  map (fun row => nth j row 0%float) m.

Definition example_numerics : Numerics :=
  mkNumerics (fun v => (1 + v)%float) (fun v => (v - 1)%float)
             (fun a b => (PrimFloat.of_uint63 (Uint63.of_Z a)
                          / PrimFloat.of_uint63 (Uint63.of_Z b))%float)
             sum_left
             (fun t => sum_left (concat (concat t)))
             (fun x w i j => dot_left (nth i x []) (column_of w j))
             (fun v A j => dot_left v (column_of A j))
             (fun v => (v * v)%float).

(** The exact value of a finite float as a multiple of [2^e], and the
    exact sum of a row on that grid (no rounding). *)
Definition scaled (e : Z) (f : float) : option Z :=
  match Prim2SF f with
  | S754_zero _ => Some 0%Z
  | S754_finite sign m ex =>
      if (e <=? ex)%Z
      then Some ((if sign then -1 else 1) * Z.pos m * 2 ^ (ex - e))%Z
      else None
  | _ => None
  end.

Fixpoint exact_sum (e : Z) (row : vec) : option Z :=
  match row with
  | [] => Some 0%Z
  | f :: rest =>
      match scaled e f, exact_sum e rest with
      | Some a, Some b => Some (a + b)%Z
      | _, _ => None
      end
  end.

(** A row that sums to one exactly and in floating point, and whose
    last entry is not one minus the floating-point sum of the others. *)
Definition tight_row : vec :=
  [(1 - Z.ldexp 1 (-53))%float; (127 * Z.ldexp 1 (-60))%float; Z.ldexp 1 (-60)].

(** * Properties *)

(** ** Reasoning about results and the monad *)

Lemma bind_Ok {A B : Type} (m : result A) (f : A -> result B) (b : B) :
  (x <- m ;; f x) = Ok b -> exists a, m = Ok a /\ f a = Ok b.
Proof.
  destruct m as [a | e]; simpl; intros H.
  - exists a; auto.
  - discriminate.
Qed.

Lemma bindM_Ok {A B : Type} (m : M A) (f : A -> M B) (s : World) (r : B * World) :
  (x <- m ;; f x) s = Ok r -> exists a s', m s = Ok (a, s') /\ f a s' = Ok r.
Proof.
  simpl. destruct (m s) as [[a s'] | e]; intros H.
  - exists a, s'; auto.
  - discriminate.
Qed.

Lemma lift_Ok {A : Type} (r : result A) (s : World) (a : A) (s' : World) :
  lift r s = Ok (a, s') -> r = Ok a /\ s' = s.
Proof.
  unfold lift. destruct r; intros H; inversion H; auto.
Qed.

(** Inversion of a successful run, one bind at a time. *)
Ltac inv_step :=
  match goal with
  | H : Ok _ = Ok _ |- _ => inversion H; subst; clear H
  | H : Raise _ = Ok _ |- _ => discriminate H
  | H : (_, _) = (_, _) |- _ => inversion H; subst; clear H
  | H : ret _ _ = Ok _ |- _ => inversion H; subst; clear H
  | H : lift ?r _ = Ok _ |- _ =>
      let a := fresh "a" in
      let e := fresh "e" in
      let E := fresh "E" in
      unfold lift in H; destruct r as [a | e] eqn:E; [|discriminate H]
  | H : @bind M _ _ _ _ _ _ = Ok _ |- _ =>
      let a := fresh "a" in
      let s := fresh "s" in
      let H1 := fresh "H" in
      apply bindM_Ok in H; destruct H as (a & s & H1 & H)
  | H : @bind result _ _ _ _ _ = Ok _ |- _ =>
      let a := fresh "a" in
      let H1 := fresh "H" in
      apply bind_Ok in H; destruct H as (a & H1 & H)
  | H : (let (_, _) := ?p in _) _ = Ok _ |- _ => destruct p
  | H : (let (_, _) := ?p in _) = Ok _ |- _ => destruct p
  | H : match ?m with Ok _ => _ | Raise _ => _ end = Ok _ |- _ =>
      let E := fresh "E" in
      destruct m as [? | ?] eqn:E; [|discriminate H]
  end.

Ltac inv_ok := repeat inv_step.

(** ** Indices and updates *)

Lemma wrap_nonneg (len : nat) (i : Z) :
  (0 <= i < Z.of_nat len)%Z -> Np.wrap len i = Ok (Z.to_nat i).
Proof.
  intros [H0 H1]. unfold Np.wrap.
  apply Z.leb_le in H0. apply Z.ltb_lt in H1. rewrite H0, H1. reflexivity.
Qed.

Lemma wrap_of_nat (len j : nat) : j < len -> Np.wrap len (Z.of_nat j) = Ok j.
Proof.
  intros H. rewrite wrap_nonneg by lia. now rewrite Nat2Z.id.
Qed.

Lemma wrap_lt (len : nat) (i : Z) (j : nat) : Np.wrap len i = Ok j -> j < len.
Proof.
  unfold Np.wrap. intros H.
  destruct ((0 <=? i) && (i <? Z.of_nat len))%Z eqn:E1.
  - apply andb_true_iff in E1. destruct E1 as [E1 E2].
    apply Z.leb_le in E1. apply Z.ltb_lt in E2. inversion H; lia.
  - destruct ((- Z.of_nat len <=? i) && (i <? 0))%Z eqn:E2; [|discriminate].
    apply andb_true_iff in E2. destruct E2 as [E2 E3].
    apply Z.leb_le in E2. apply Z.ltb_lt in E3. inversion H; lia.
Qed.

Lemma update_length {A : Type} (l : list A) (j : nat) (v : A) :
  length (Np.update l j v) = length l.
Proof.
  revert j; induction l as [|h t IH]; intros [|j]; simpl; auto.
Qed.

Lemma nth_update {A : Type} (l : list A) (i j : nat) (v dflt : A) :
  i < length l ->
  nth j (Np.update l i v) dflt = if j =? i then v else nth j l dflt.
Proof.
  revert i j; induction l as [|h t IH]; intros i j Hi; simpl in Hi; [lia|].
  destruct i as [|i], j as [|j]; simpl; auto.
  apply IH; lia.
Qed.

Lemma set_index_length {A : Type} (l l' : list A) (i : Z) (v : A) :
  Np.set_index l i v = Ok l' -> length l' = length l.
Proof.
  unfold Np.set_index. intros H. inv_ok. apply update_length.
Qed.

Lemma set_index_of_nat {A : Type} (l : list A) (j : nat) (v : A) :
  j < length l -> Np.set_index l (Z.of_nat j) v = Ok (Np.update l j v).
Proof.
  intros H. unfold Np.set_index. rewrite wrap_of_nat by assumption. reflexivity.
Qed.

(** ** The one-hot indicator *)

Lemma fold_max_ge (t : list Z) (h : Z) :
  (h <= fold_left Z.max t h)%Z /\ Forall (fun v => v <= fold_left Z.max t h)%Z t.
Proof.
  revert h; induction t as [|a t IH]; intros h; simpl.
  - split; [lia | constructor].
  - destruct (IH (Z.max h a)) as [H1 H2]. split; [lia|].
    constructor; [lia | assumption].
Qed.

Lemma fold_max_in (t : list Z) (h : Z) : In (fold_left Z.max t h) (h :: t).
Proof.
  revert h; induction t as [|a t IH]; intros h; simpl.
  - now left.
  - destruct (IH (Z.max h a)) as [H | H].
    + destruct (Z.max_spec h a) as [[_ E] | [_ E]]; rewrite E in H;
        [right; left | left]; congruence.
    + right; right; assumption.
Qed.

Lemma max_spec (y : list Z) :
  y <> [] -> exists m, Np.max y = Ok m /\ In m y /\ Forall (fun v => v <= m)%Z y.
Proof.
  destruct y as [|h t]; [congruence|]. intros _.
  exists (fold_left Z.max t h). split; [reflexivity|]. split.
  - apply fold_max_in.
  - destruct (fold_max_ge t h) as [H1 H2]. constructor; assumption.
Qed.

Lemma set_each_zeros (cols : nat) (y : list Z) :
  Forall (fun v => 0 <= v < Z.of_nat cols)%Z y ->
  Np.set_each (Np.zeros2 (length y) cols) y 1%float
  = Ok (map (fun v => Np.update (Np.zeros1 cols) (Z.to_nat v) 1%float) y).
Proof.
  induction 1 as [|v y Hv Hy IH]; [reflexivity|].
  simpl. unfold Np.zeros2 in IH. rewrite IH.
  unfold Np.set_index, Np.zeros1. rewrite repeat_length, wrap_nonneg by lia.
  reflexivity.
Qed.

Lemma nth_zeros1 (cols j : nat) : nth j (Np.zeros1 cols) 0%float = 0%float.
Proof.
  unfold Np.zeros1. revert j; induction cols; intros [|j]; simpl; auto.
Qed.

(** [one_hot] on a non-empty vector of non-negative categories. *)
Lemma one_hot_value (y : list Z) :
  y <> [] -> Forall (fun v => 0 <= v)%Z y ->
  exists m, In m y /\ Forall (fun v => v <= m)%Z y /\
    one_hot y
    = Ok (map (fun v => Np.update (Np.zeros1 (Z.to_nat (m + 1))) (Z.to_nat v) 1%float) y).
Proof.
  intros Hne Hpos. destruct (max_spec Hne) as (m & Hmax & Hin & Hle).
  exists m. split; [assumption|]. split; [assumption|].
  unfold one_hot, astype_int. rewrite Hmax. simpl.
  assert (0 <= m)%Z as Hm.
  { rewrite Forall_forall in Hpos. apply Hpos. assumption. }
  unfold Np.dim. destruct (m + 1 <? 0)%Z eqn:E; [apply Z.ltb_lt in E; lia|].
  apply set_each_zeros.
  rewrite Forall_forall in *. intros v Hv.
  specialize (Hpos v Hv). specialize (Hle v Hv). lia.
Qed.

Lemma for_each_ext {A : Type} (f g : A -> M unit) (l : list A) (s : World) :
  (forall a s', f a s' = g a s') -> for_each f l s = for_each g l s.
Proof.
  intros Hfg. revert s; induction l as [|a l IH]; intros s; simpl; [reflexivity|].
  rewrite Hfg. destruct (g a s) as [[[] s'] | e]; auto.
Qed.

(** [_updateObservations] consults the regression solve only at the
    indicator of [y]. *)
Lemma updateObservations_solve_ext (co1 co2 : Collaborators) (y : list Z)
      (x : mat) (w : tens) (gammas : mat) (s : World) (yy : mat) :
  one_hot y = Ok yy ->
  (forall x' w' hs gam gp,
      glm_fit co1 x' w' yy hs gam gp = glm_fit co2 x' w' yy hs gam gp) ->
  _updateObservations co1 y x w gammas s = _updateObservations co2 y x w gammas s.
Proof.
  intros Hyy Hfit. unfold _updateObservations. rewrite Hyy. simpl.
  rewrite (@for_each_ext _ (update_state co1 x w yy gammas)
                         (update_state co2 x w yy gammas)).
  - reflexivity.
  - intros zk s'. unfold update_state. simpl.
    destruct (Np.index w (Z.of_nat zk)); simpl; [|reflexivity].
    destruct (Np.column gammas (Z.of_nat zk)); simpl; [|reflexivity].
    rewrite Hfit. reflexivity.
Qed.

(** ** Frames: what the methods leave alone *)

Lemma only_runtime_refl (s : World) : only_runtime_warnings s s.
Proof. exists []. split; [symmetry; apply app_nil_r | constructor]. Qed.

Lemma only_runtime_trans (s1 s2 s3 : World) :
  only_runtime_warnings s1 s2 -> only_runtime_warnings s2 s3 ->
  only_runtime_warnings s1 s3.
Proof.
  intros (ws1 & E1 & F1) (ws2 & E2 & F2). exists (ws1 ++ ws2). split.
  - rewrite E2, E1, app_assoc. reflexivity.
  - apply Forall_app. split; assumption.
Qed.

Lemma only_runtime_same (s s' : World) :
  issued s' = issued s -> only_runtime_warnings s s'.
Proof.
  intros H. exists []. split; [rewrite app_nil_r; exact H | constructor].
Qed.

(** Reporting numpy's errors adds one [RuntimeWarning] each and
    nothing else. *)
Lemma warn_each_runtime (l : list fp_error) (s : World) (u : unit) (s' : World) :
  for_each (fun _ : fp_error => warn RuntimeWarning) l s = Ok (u, s') ->
  self s' = self s /\
  issued s' = issued s ++ repeat RuntimeWarning (length l).
Proof.
  revert s. induction l as [|a l IH]; intros s H.
  - simpl in H. inv_ok. split; [reflexivity | symmetry; apply app_nil_r].
  - change (for_each (fun _ : fp_error => warn RuntimeWarning) (a :: l) s)
      with (for_each (fun _ : fp_error => warn RuntimeWarning) l
              (mkWorld (self s) (issued s ++ [RuntimeWarning]))) in H.
    apply IH in H. simpl in H. destruct H as [H1 H2]. split; [exact H1|].
    rewrite H2, <- app_assoc. reflexivity.
Qed.

(** The E step reads the object and writes nothing to it; the only
    warnings it issues are those numpy reports for [**]. *)
Lemma session_step_world (co : Collaborators) y A phi pi0 B e p s e' s' :
  session_step co y A phi pi0 B e p s = Ok (e', s') ->
  self s' = self s /\ only_runtime_warnings s s'.
Proof.
  unfold session_step, get_self. destruct p as [lo hi]. intros H.
  inv_ok.
  match goal with H1 : for_each _ _ _ = Ok _ |- _ =>
    apply warn_each_runtime in H1; destruct H1 as [H1 H2] end.
  split; [assumption|]. eexists. split; [eassumption|].
  apply Forall_forall. intros x Hx. apply repeat_spec in Hx. exact Hx.
Qed.

Lemma fold_sessions_world (step : EStep -> Z * Z -> M EStep) (l : list (Z * Z)) :
  (forall e p s e' s', step e p s = Ok (e', s') ->
                       self s' = self s /\ only_runtime_warnings s s') ->
  forall e s e' s', fold_sessions step l e s = Ok (e', s') ->
                    self s' = self s /\ only_runtime_warnings s s'.
Proof.
  intros Hstep. induction l as [|p l IH]; intros e s e' s' H; simpl in H.
  - inv_ok. split; [reflexivity | apply only_runtime_refl].
  - inv_ok.
    match goal with H1 : step _ _ _ = Ok _ |- _ =>
      apply Hstep in H1; destruct H1 as [H1 H2] end.
    apply IH in H. destruct H as [H3 H4]. split; [congruence|].
    eapply only_runtime_trans; eassumption.
Qed.

Lemma E_step_world (co : Collaborators) y A phi pi0 sess B s e s' :
  E_step co y A phi pi0 sess B s = Ok (e, s') ->
  self s' = self s /\ only_runtime_warnings s s'.
Proof.
  unfold E_step, get_self. intros H. inv_ok.
  eapply fold_sessions_world; [|eassumption].
  intros; eapply session_step_world; eassumption.
Qed.

Lemma frame_refl (b : bool) (s : World) : frame b s s.
Proof.
  unfold frame. split; [apply only_runtime_refl|]. repeat split; auto.
Qed.

Lemma frame_trans (b : bool) (s1 s2 s3 : World) :
  frame b s1 s2 -> frame b s2 s3 -> frame b s1 s3.
Proof.
  unfold frame. intros H1 H2.
  destruct H1 as (W1&?&?&?&?&?&?&P1), H2 as (W2&?&?&?&?&?&?&P2).
  split; [eapply only_runtime_trans; eassumption|].
  repeat split; try congruence.
  intros Hb. rewrite (P2 Hb). exact (P1 Hb).
Qed.

Lemma frame_weaken (s s' : World) : frame true s s' -> forall b, frame b s s'.
Proof.
  unfold frame. intros (?&?&?&?&?&?&?&?) b.
  split; [assumption|]. repeat split; auto.
Qed.

(** A world with the same object and more of numpy's warnings. *)
Lemma frame_same_object (s s' : World) :
  self s' = self s -> only_runtime_warnings s s' -> frame true s s'.
Proof.
  intros H W. unfold frame. split; [assumption|]. rewrite H.
  repeat split; reflexivity.
Qed.

Lemma set_w_frame (w : tens) (s : World) (u : unit) (s' : World) :
  set_w w s = Ok (u, s') -> frame true s s' /\ issued s' = issued s.
Proof.
  unfold set_w, get_self, put_self. simpl. intros H. inv_ok.
  split; [|reflexivity].
  unfold frame; simpl. split; [apply only_runtime_same; reflexivity|].
  repeat split; auto.
Qed.

Lemma set_phi_frame (phi : tens) (s : World) (u : unit) (s' : World) :
  set_phi phi s = Ok (u, s') -> frame true s s' /\ issued s' = issued s.
Proof.
  unfold set_phi, get_self, put_self. simpl. intros H. inv_ok.
  split; [|reflexivity].
  unfold frame; simpl. split; [apply only_runtime_same; reflexivity|].
  repeat split; auto.
Qed.

Lemma set_pi0_frame (p : option vec) (s : World) (u : unit) (s' : World) :
  set_pi0 p s = Ok (u, s') -> frame false s s' /\ self_pi0 (self s') = p.
Proof.
  unfold set_pi0, get_self, put_self. simpl. intros H. inv_ok.
  split; [|reflexivity].
  unfold frame; simpl. split; [apply only_runtime_same; reflexivity|].
  repeat split; auto. discriminate.
Qed.

Lemma update_state_frame (co : Collaborators) x w yy gammas zk s u s' :
  update_state co x w yy gammas zk s = Ok (u, s') -> frame true s s'.
Proof.
  unfold update_state, get_self. intros H. inv_ok.
  match goal with H1 : set_w _ _ = Ok _ |- _ =>
    apply set_w_frame in H1; destruct H1 as [H1 _] end.
  match goal with H1 : set_phi _ _ = Ok _ |- _ =>
    apply set_phi_frame in H1; destruct H1 as [H1 _] end.
  eapply frame_trans; eassumption.
Qed.

Lemma for_each_frame {A : Type} (body : A -> M unit) (l : list A) :
  (forall a s u s', body a s = Ok (u, s') -> frame true s s') ->
  forall s u s', for_each body l s = Ok (u, s') -> frame true s s'.
Proof.
  intros Hbody. induction l as [|a l IH]; intros s u s' H; simpl in H.
  - inv_ok. apply frame_refl.
  - inv_ok. eapply frame_trans; [eapply Hbody | eapply IH]; eassumption.
Qed.

Lemma updateObservations_frame (co : Collaborators) y x w gammas s r s' :
  _updateObservations co y x w gammas s = Ok (r, s') -> frame true s s'.
Proof.
  unfold _updateObservations, get_self. intros H. inv_ok.
  match goal with H1 : set_phi _ _ = Ok _ |- _ =>
    apply set_phi_frame in H1; destruct H1 as [H1 _] end.
  match goal with
    H1 : for_each _ _ _ = Ok _ |- _ =>
      apply for_each_frame in H1;
      [|intros; eapply update_state_frame; eassumption]
  end.
  eapply frame_trans; eassumption.
Qed.

Lemma updateParams_frame (co : Collaborators) y x gammas beta alpha cs A phi w
      (fis : bool) s A' w' phi' pi0' s' :
  _updateParams co y x gammas beta alpha cs A phi w fis s
  = Ok ((A', w', phi', pi0'), s') ->
  frame (negb fis) s s' /\ pi0' = self_pi0 (self s').
Proof.
  unfold _updateParams, get_self. intros H. inv_ok.
  match goal with
    H1 : _updateObservations _ _ _ _ _ _ = Ok _ |- _ =>
      apply updateObservations_frame in H1
  end.
  split; [|reflexivity].
  destruct fis; simpl in *.
  - inv_ok.
    match goal with
      H1 : set_pi0 _ _ = Ok _ |- _ => apply set_pi0_frame in H1; destruct H1 as [H1 _]
    end.
    eapply frame_trans; [apply frame_weaken|]; eassumption.
  - inv_ok. assumption.
Qed.

(** ** One pass through the loop body *)

Lemma wrap_of_nat_inv (len n j : nat) :
  Np.wrap len (Z.of_nat n) = Ok j -> j = n /\ n < len.
Proof.
  unfold Np.wrap. intros H.
  destruct ((0 <=? Z.of_nat n) && (Z.of_nat n <? Z.of_nat len))%Z eqn:E1.
  - apply andb_true_iff in E1. destruct E1 as [_ E1]. apply Z.ltb_lt in E1.
    inversion H. lia.
  - destruct ((- Z.of_nat len <=? Z.of_nat n) && (Z.of_nat n <? 0))%Z eqn:E2;
      [|discriminate].
    apply andb_true_iff in E2. destruct E2 as [_ E2]. apply Z.ltb_lt in E2. lia.
Qed.

Lemma set_index_of_nat_inv {A : Type} (l l' : list A) (n : nat) (v : A) :
  Np.set_index l (Z.of_nat n) v = Ok l' -> n < length l /\ l' = Np.update l n v.
Proof.
  unfold Np.set_index. intros H. inv_ok.
  match goal with H1 : Np.wrap _ _ = Ok _ |- _ =>
    apply wrap_of_nat_inv in H1; destruct H1 as [-> ?] end.
  auto.
Qed.

Lemma update_update {A : Type} (l : list A) (n : nat) (v v' : A) :
  Np.update (Np.update l n v) n v' = Np.update l n v'.
Proof.
  revert n; induction l as [|h t IH]; intros [|n]; simpl; auto.
  now rewrite IH.
Qed.

Lemma nth_error_update {A : Type} (l : list A) (n : nat) (v : A) :
  n < length l -> nth_error (Np.update l n v) n = Some v.
Proof.
  revert n; induction l as [|h t IH]; intros [|n] H; simpl in *; try lia; auto.
  apply IH; lia.
Qed.

Lemma nth_error_update_other {A : Type} (l : list A) (n i : nat) (v : A) :
  i <> n -> nth_error (Np.update l n v) i = nth_error l i.
Proof.
  revert n i; induction l as [|h t IH]; intros [|n] [|i] H; simpl; auto;
    congruence.
Qed.

Lemma index_of_nat_inv {A : Type} (l : list A) (n : nat) (a : A) :
  Np.index l (Z.of_nat n) = Ok a -> nth_error l n = Some a.
Proof.
  unfold Np.index. intros H. inv_ok.
  match goal with H1 : Np.wrap _ _ = Ok _ |- _ =>
    apply wrap_of_nat_inv in H1; destruct H1 as [-> ?] end.
  destruct (nth_error l n); inv_ok; reflexivity.
Qed.

(** ** The solves of [_updateObservations], state by state *)

Lemma set_plane_inv (t : tens) (zk : nat) (v : mat) (t' : tens) :
  set_plane t zk v = Ok t' ->
  exists old v',
    nth_error t zk = Some old /\
    Np.broadcast2 (fst (shape2 old)) (snd (shape2 old)) v = Ok v' /\
    t' = Np.update t zk v' /\ zk < length t.
Proof.
  unfold set_plane. intros H. inv_ok.
  match goal with H1 : Np.index _ _ = Ok _ |- _ =>
    apply index_of_nat_inv in H1 end.
  match goal with H1 : Np.set_index _ _ _ = Ok _ |- _ =>
    apply set_index_of_nat_inv in H1; destruct H1 as [? ->] end.
  eauto 10.
Qed.

Lemma set_middle_inv (t : tens) (zk : nat) (v : mat) (t' : tens) :
  set_middle t zk v = Ok t' ->
  middle t' zk = map Some v /\
  (forall zk', zk' <> zk -> middle t' zk' = middle t zk').
Proof.
  revert v t'. induction t as [|m t IH]; intros [|r v] t' H; simpl in H;
    try discriminate.
  - inv_ok. split; [reflexivity | intros; reflexivity].
  - inv_ok.
    match goal with H1 : Np.set_index _ _ _ = Ok _ |- _ =>
      apply set_index_of_nat_inv in H1; destruct H1 as [Hlt ->] end.
    match goal with H1 : set_middle _ _ _ = Ok _ |- _ =>
      apply IH in H1; destruct H1 as [IH1 IH2] end.
    unfold middle in *. simpl. split.
    + rewrite nth_error_update by assumption. rewrite IH1. reflexivity.
    + intros zk' Hne. rewrite nth_error_update_other by assumption.
      rewrite IH2 by assumption. reflexivity.
Qed.

Lemma set_w_inv (w : tens) (s : World) (u : unit) (s' : World) :
  set_w w s = Ok (u, s') ->
  self_w (self s') = w /\ self_phi (self s') = self_phi (self s).
Proof.
  unfold set_w, get_self, put_self. simpl. intros H. inv_ok. simpl. auto.
Qed.

Lemma set_phi_inv (phi : tens) (s : World) (u : unit) (s' : World) :
  set_phi phi s = Ok (u, s') ->
  self_phi (self s') = phi /\ self_w (self s') = self_w (self s).
Proof.
  unfold set_phi, get_self, put_self. simpl. intros H. inv_ok. simpl. auto.
Qed.

(** One solve: what it read, and what it left in [self.w] and
    [self.phi]. *)
Lemma update_state_inv (co : Collaborators) (x : mat) (w : tens)
      (yy gammas : mat) (zk : nat) (s : World) (u : unit) (s' : World) :
  update_state co x w yy gammas zk s = Ok (u, s') ->
  solved_at co x w gammas yy (self s) (self_w (self s')) (self_phi (self s')) zk /\
  length (self_w (self s')) = length (self_w (self s)) /\
  (forall zk', zk' <> zk ->
     nth_error (self_w (self s')) zk' = nth_error (self_w (self s)) zk' /\
     middle (self_phi (self s')) zk' = middle (self_phi (self s)) zk').
Proof.
  unfold update_state, get_self, set_column.
  intros H. inv_ok.
  match goal with H1 : set_w _ _ = Ok _ |- _ =>
    apply set_w_inv in H1; destruct H1 as [W1 W2] end.
  match goal with H1 : set_phi _ _ = Ok _ |- _ =>
    apply set_phi_inv in H1; destruct H1 as [P1 P2] end.
  rewrite P1, P2, W1.
  match goal with H1 : set_plane _ _ _ = Ok _ |- _ =>
    apply set_plane_inv in H1; destruct H1 as (old & v_w & Hold & Hbw & -> & Hlt) end.
  match goal with H1 : set_middle _ _ _ = Ok _ |- _ =>
    apply set_middle_inv in H1; destruct H1 as [Hmid Hother] end.
  split; [|split].
  - unfold solved_at. do 7 eexists.
    repeat (split; [eassumption|]).
    split; [apply nth_error_update; assumption|].
    split; eassumption.
  - apply update_length.
  - intros zk' Hne. split.
    + apply nth_error_update_other. assumption.
    + apply Hother. assumption.
Qed.

(** The solves of distinct states do not disturb one another. *)
Lemma for_each_solved (co : Collaborators) (x : mat) (w : tens)
      (yy gammas : mat) (l : list nat) :
  NoDup l ->
  forall (s : World) (u : unit) (s' : World),
    for_each (update_state co x w yy gammas) l s = Ok (u, s') ->
    (forall zk, ~ In zk l ->
       nth_error (self_w (self s')) zk = nth_error (self_w (self s)) zk /\
       middle (self_phi (self s')) zk = middle (self_phi (self s)) zk) /\
    (forall zk, In zk l ->
       solved_at co x w gammas yy (self s)
                 (self_w (self s')) (self_phi (self s')) zk).
Proof.
  induction 1 as [|a l Ha Hl IH]; intros s u s' H; simpl in H.
  - inv_ok. split; [auto | intros zk []].
  - inv_ok.
    match goal with H1 : update_state _ _ _ _ _ _ _ = Ok _ |- _ =>
      pose proof (update_state_frame _ _ _ _ _ _ _ H1) as F;
      apply update_state_inv in H1; destruct H1 as (Hsolved & _ & Hkeep) end.
    apply IH in H. destruct H as [IHkeep IHsolved].
    destruct F as (_ & Fn & _ & Fc & _ & Fh & Fg & _).
    split.
    + intros zk Hzk. simpl in Hzk.
      destruct (IHkeep zk) as [K1 K2]; [tauto|].
      destruct (Hkeep zk) as [K3 K4]; [intros ->; tauto|].
      split; congruence.
    + intros zk [-> | Hin].
      * destruct (IHkeep zk Ha) as [K1 K2].
        destruct Hsolved
          as (w_zk & gam & w_new & phi_new & old & v_w & v_phi
              & S1 & S2 & S3 & S4 & S5 & S6 & S7 & S8).
        exists w_zk, gam, w_new, phi_new, old, v_w, v_phi.
        repeat (split; [assumption|]).
        split; [congruence|]. split; [assumption|]. congruence.
      * destruct (IHsolved zk Hin)
          as (w_zk & gam & w_new & phi_new & old & v_w & v_phi
              & S1 & S2 & S3 & S4 & S5 & S6 & S7 & S8).
        assert (zk <> a) as Hne by (intros ->; contradiction).
        destruct (Hkeep zk Hne) as [K3 _].
        exists w_zk, gam, w_new, phi_new, old, v_w, v_phi.
        rewrite Fh, Fg in S3. rewrite Fn, Fc in S7. rewrite K3 in S4.
        repeat (split; [assumption|]). assumption.
Qed.

(** [_updateObservations] builds the indicator of [y] and runs the
    solve of every state on it. *)
Lemma updateObservations_solved (co : Collaborators) (y : list Z) (x : mat)
      (w : tens) (gammas : mat) (s : World) (w' phi' : tens) (s' : World) :
  _updateObservations co y x w gammas s = Ok ((w', phi'), s') ->
  exists yy : mat,
    one_hot y = Ok yy /\
    forall zk, zk < self_k (self s) ->
      solved_at co x w gammas yy (self s) w' phi' zk.
Proof.
  unfold _updateObservations, get_self. intros H. inv_ok.
  match goal with H1 : set_phi _ _ = Ok _ |- _ =>
    pose proof H1 as F; apply set_phi_frame in F; destruct F as [F _];
    apply set_phi_inv in H1; destruct H1 as [_ P2] end.
  match goal with H1 : for_each _ _ _ = Ok _ |- _ =>
    apply for_each_solved in H1; [|apply seq_NoDup]; destruct H1 as [_ Hs] end.
  destruct F as (_ & Fn & _ & Fc & Fk & Fh & Fg & _).
  eexists. split; [reflexivity|].
  intros zk Hzk.
  destruct (Hs zk)
    as (w_zk & gam & w_new & phi_new & old & v_w & v_phi
        & S1 & S2 & S3 & S4 & S5 & S6 & S7 & S8).
  { apply in_seq. simpl. lia. }
  exists w_zk, gam, w_new, phi_new, old, v_w, v_phi.
  rewrite Fh, Fg in S3. rewrite Fn, Fc in S7. rewrite P2 in S4.
  repeat (split; [assumption|]). assumption.
Qed.

(** C10.  For a non-empty vector [y] of non-negative categories, the
    indicator built by [_updateObservations] has one row per observation
    and [max(y) + 1] columns, whatever the configured category count;
    row [t] holds 1 in column [y_t] and 0 elsewhere; when every entry is
    below [c] and category [c - 1] does not occur, it has fewer than [c]
    columns; in every call of [_updateObservations] that returns, the
    solve of each of the [k] states was run on this indicator, with that
    state's weights and responsibilities, and its results were assigned
    to that state's part of [self.w] and of [self.phi]; and the solve
    is consulted at this indicator only. *)
Theorem one_hot_indicator (y : list Z) :
  y <> [] -> Forall (fun v => 0 <= v)%Z y ->
  exists (m : Z) (yy : mat),
    In m y /\ Forall (fun v => v <= m)%Z y /\
    one_hot y = Ok yy /\
    length yy = length y /\
    Forall (fun row => length row = Z.to_nat (m + 1)) yy /\
    (forall t j : nat,
        t < length y -> j < Z.to_nat (m + 1) ->
        nth j (nth t yy []) 0%float
        = if (Z.of_nat j =? nth t y 0)%Z then 1%float else 0%float) /\
    (forall c : nat,
        Forall (fun v => v < Z.of_nat c)%Z y -> ~ In (Z.of_nat c - 1)%Z y ->
        Z.to_nat (m + 1) < c) /\
    (forall (co : Collaborators) (x : mat) (w : tens) (gammas : mat)
            (s : World) (w' phi' : tens) (s' : World),
        _updateObservations co y x w gammas s = Ok ((w', phi'), s') ->
        forall zk, zk < self_k (self s) ->
          solved_at co x w gammas yy (self s) w' phi' zk) /\
    (forall (co1 co2 : Collaborators) (x : mat) (w : tens) (gammas : mat)
            (s : World),
        (forall x' w' hs gam gp,
            glm_fit co1 x' w' yy hs gam gp = glm_fit co2 x' w' yy hs gam gp) ->
        _updateObservations co1 y x w gammas s
        = _updateObservations co2 y x w gammas s).
Proof.
  intros Hne Hpos.
  destruct (one_hot_value Hne Hpos) as (m & Hin & Hle & Hyy).
  assert (0 <= m)%Z as Hm by (rewrite Forall_forall in Hpos; auto).
  eexists m, _.
  split; [exact Hin|]. split; [exact Hle|]. split; [exact Hyy|].
  split; [|split; [|split; [|split; [|split]]]].
  - now rewrite length_map.
  - rewrite Forall_forall. intros row Hrow. apply in_map_iff in Hrow.
    destruct Hrow as (v & <- & _). rewrite update_length.
    unfold Np.zeros1. apply repeat_length.
  - intros t j Ht Hj.
    set (f := fun v => Np.update (Np.zeros1 (Z.to_nat (m + 1))) (Z.to_nat v) 1%float).
    rewrite (nth_indep _ [] (f 0%Z)) by (rewrite length_map; assumption).
    rewrite map_nth. unfold f.
    assert (In (nth t y 0%Z) y) as Hnth by (apply nth_In; assumption).
    rewrite Forall_forall in Hpos, Hle.
    specialize (Hpos _ Hnth). specialize (Hle _ Hnth).
    rewrite nth_update
      by (unfold Np.zeros1; rewrite repeat_length; lia).
    rewrite nth_zeros1.
    destruct (Z.of_nat j =? nth t y 0)%Z eqn:E.
    + apply Z.eqb_eq in E. rewrite <- E, Nat2Z.id, Nat.eqb_refl. reflexivity.
    + apply Z.eqb_neq in E.
      destruct (j =? Z.to_nat (nth t y 0%Z)) eqn:E'; [|reflexivity].
      apply Nat.eqb_eq in E'. lia.
  - intros c Hc Hlast. rewrite Forall_forall in Hc. specialize (Hc _ Hin).
    assert (m <> Z.of_nat c - 1)%Z by (intros ->; contradiction). lia.
  - intros co x w gammas s w' phi' s' Hrun zk Hzk.
    apply updateObservations_solved in Hrun.
    destruct Hrun as (yy' & Hyy' & Hsolved).
    rewrite Hyy in Hyy'. injection Hyy' as <-. apply Hsolved. exact Hzk.
  - intros co1 co2 x w gammas s Hfit.
    eapply updateObservations_solve_ext; eassumption.
Qed.

(** The theorem at [y = [0; 2; 1; 0]]. *)
Lemma one_hot_indicator_witness :
  exists (m : Z) (yy : mat),
    In m [0; 2; 1; 0]%Z /\ Forall (fun v => v <= m)%Z [0; 2; 1; 0]%Z /\
    one_hot [0; 2; 1; 0]%Z = Ok yy /\
    length yy = 4 /\
    Forall (fun row => length row = Z.to_nat (m + 1)) yy /\
    (forall t j : nat,
        t < 4 -> j < Z.to_nat (m + 1) ->
        nth j (nth t yy []) 0%float
        = if (Z.of_nat j =? nth t [0; 2; 1; 0]%Z 0)%Z then 1%float else 0%float) /\
    (forall c : nat,
        Forall (fun v => v < Z.of_nat c)%Z [0; 2; 1; 0]%Z ->
        ~ In (Z.of_nat c - 1)%Z [0; 2; 1; 0]%Z ->
        Z.to_nat (m + 1) < c) /\
    (forall (co : Collaborators) (x : mat) (w : tens) (gammas : mat)
            (s : World) (w' phi' : tens) (s' : World),
        _updateObservations co [0; 2; 1; 0]%Z x w gammas s = Ok ((w', phi'), s') ->
        forall zk, zk < self_k (self s) ->
          solved_at co x w gammas yy (self s) w' phi' zk) /\
    (forall (co1 co2 : Collaborators) (x : mat) (w : tens) (gammas : mat)
            (s : World),
        (forall x' w' hs gam gp,
            glm_fit co1 x' w' yy hs gam gp = glm_fit co2 x' w' yy hs gam gp) ->
        _updateObservations co1 [0; 2; 1; 0]%Z x w gammas s
        = _updateObservations co2 [0; 2; 1; 0]%Z x w gammas s).
Proof.
  apply (@one_hot_indicator [0; 2; 1; 0]%Z).
  - discriminate.
  - repeat constructor; lia.
Defined.

(** A call on the stand-in data: two states, both solved on the
    indicator of [y = [0; 1]], each leaving its weights and its two rows
    of probabilities in the object. *)
Lemma updateObservations_solves_both_states :
  exists (w' phi' : tens) (s' : World),
    _updateObservations Example.steady Example.y Example.x Example.w
                        [[0.5; 0.5]; [0.5; 0.5]]%float Example.world
    = Ok ((w', phi'), s') /\
    one_hot Example.y = Ok [[1; 0]; [0; 1]]%float /\
    w' = Example.w /\
    phi' = [[[0.5; 0.5]; [0.5; 0.5]]; [[0.5; 0.5]; [0.5; 0.5]]]%float /\
    forall zk, zk < 2 ->
      solved_at Example.steady Example.x Example.w
                [[0.5; 0.5]; [0.5; 0.5]]%float [[1; 0]; [0; 1]]%float
                (self Example.world) w' phi' zk.
Proof.
  do 3 eexists.
  match goal with |- ?P /\ _ => assert P as H by (vm_compute; reflexivity) end.
  split; [exact H|]. split; [reflexivity|]. split; [reflexivity|].
  split; [reflexivity|].
  apply updateObservations_solved in H. destruct H as (yy & Hyy & Hs).
  vm_compute in Hyy. injection Hyy as <-. exact Hs.
Qed.

Section Iteration.

Variable co : Collaborators.
Variables (y : list Z) (x : mat) (fis : bool) (tol : float).
Variables (sess : list Z) (B : float).

Lemma em_iteration_spec (n : nat) (st : Locals) (s : World)
      (st' : Locals) (ll : float) (s' : World) :
  em_iteration co y x fis sess B n st s = Ok ((st', ll), s') ->
  exists (e : EStep) (s_e : World),
    E_step co y (l_A st) (l_phi st) (l_pi0 st) sess B s = Ok (e, s_e) /\
    self s_e = self s /\
    ll = e_ll e /\
    n < length (l_lls st) /\
    l_lls st' = Np.update (l_lls st) n ll /\
    l_n st' = Some n /\
    _updateParams co y x (e_pBack e) (e_beta e) (e_alpha e) (e_cs e)
                  (l_A st) (l_phi st) (l_w st) fis s_e
    = Ok ((l_A st', l_w st', l_phi st', l_pi0 st'), s').
Proof.
  unfold em_iteration. intros H. inv_ok.
  match goal with H1 : E_step _ _ _ _ _ _ _ _ = Ok _ |- _ =>
    let H2 := fresh in
    pose proof H1 as H2; apply E_step_world in H2; destruct H2 as [H2 _] end.
  repeat match goal with H1 : Np.set_index _ _ _ = Ok _ |- _ =>
    apply set_index_of_nat_inv in H1; destruct H1 as [? ?]; subst end.
  do 2 eexists. split; [eassumption|]. simpl.
  repeat split; auto.
  apply update_update.
Qed.

Lemma converged_spec (n : nat) (lls : vec) (ll : float) (b : bool) :
  converged tol n lls ll = Ok b ->
  nth_error lls n = Some ll ->
  b = stop_rule tol lls n.
Proof.
  unfold converged, stop_rule. intros H Hn.
  rewrite (nth_error_nth _ _ nan Hn).
  destruct (5 <? n) eqn:E; simpl; inv_ok; [|reflexivity].
  apply Nat.ltb_lt in E.
  replace (Z.of_nat n - 5)%Z with (Z.of_nat (n - 5)) in * by lia.
  match goal with H1 : Np.index _ _ = Ok _ |- _ =>
    apply index_of_nat_inv in H1; rewrite (nth_error_nth _ _ nan H1) end.
  reflexivity.
Qed.

End Iteration.

(** ** The loop *)

Lemma nth_of_nth_error {A : Type} (l1 l2 : list A) (i : nat) (d : A) :
  nth_error l1 i = nth_error l2 i -> nth i l1 d = nth i l2 d.
Proof.
  intros H. destruct (nth_error l1 i) eqn:E1.
  - rewrite (nth_error_nth _ _ _ E1). symmetry in H.
    now rewrite (nth_error_nth _ _ _ H).
  - symmetry in H. apply nth_error_None in E1, H.
    now rewrite !nth_overflow by assumption.
Qed.

(** The rule at [n] reads the trace at [n] and [n - 5] only. *)
Lemma stop_rule_prefix (tol : float) (l1 l2 : vec) (n : nat) :
  (forall i, i <= n -> nth_error l1 i = nth_error l2 i) ->
  stop_rule tol l1 n = stop_rule tol l2 n.
Proof.
  intros H. unfold stop_rule.
  rewrite (nth_of_nth_error l1 l2 n nan) by (apply H; lia).
  rewrite (nth_of_nth_error l1 l2 (n - 5) nan) by (apply H; lia).
  reflexivity.
Qed.

Section Loop.

Variable co : Collaborators.
Variables (y : list Z) (x : mat) (fis : bool) (tol : float).
Variables (sess : list Z) (B : float).

Let states := em_states co y x fis sess B.
Let loop := em_loop co y x fis tol sess B.
Let body := em_iteration co y x fis sess B.

Lemma em_states_S (j n : nat) (st : Locals) (s : World) (st' : Locals) (s' : World) :
  states (S j) n st s = Ok (st', s') <->
  exists st1 ll s1,
    body n st s = Ok ((st1, ll), s1) /\ states j (S n) st1 s1 = Ok (st', s').
Proof.
  unfold states, body. simpl. split.
  - intros H. inv_ok. eauto.
  - intros (st1 & ll & s1 & H1 & H2). rewrite H1. exact H2.
Qed.

(** Running [i] passes and then [r] more is running [i + r]. *)
Lemma em_states_split (i r n : nat) (st : Locals) (s : World)
      (st' : Locals) (s' : World) :
  states (i + r) n st s = Ok (st', s') <->
  exists st_i s_i,
    states i n st s = Ok (st_i, s_i) /\ states r (n + i) st_i s_i = Ok (st', s').
Proof.
  revert n st s. induction i as [|i IH]; intros n st s.
  - rewrite Nat.add_0_r. simpl. split.
    + intros H. exists st, s. auto.
    + intros (st_i & s_i & H1 & H2). unfold states in H1. simpl in H1.
      inv_ok. assumption.
  - replace (S i + r) with (S (i + r)) by lia. rewrite em_states_S. split.
    + intros (st1 & ll & s1 & H1 & H2). apply IH in H2.
      destruct H2 as (st_i & s_i & H2 & H3).
      exists st_i, s_i. split.
      * apply em_states_S. eauto.
      * replace (n + S i) with (S n + i) by lia. assumption.
    + intros (st_i & s_i & H1 & H2). apply em_states_S in H1.
      destruct H1 as (st1 & ll & s1 & H1 & H3).
      exists st1, ll, s1. split; [assumption|]. apply IH.
      exists st_i, s_i. split; [assumption|].
      replace (S n + i) with (n + S i) by lia. assumption.
Qed.

(** The trace along a run: its length stays, the entries outside the
    indices visited stay, and the loop variable is the last index. *)
Lemma em_states_trace (j n : nat) (st : Locals) (s : World)
      (st' : Locals) (s' : World) :
  states j n st s = Ok (st', s') ->
  length (l_lls st') = length (l_lls st) /\
  (0 < j -> n + j <= length (l_lls st)) /\
  (forall i, i < n \/ n + j <= i ->
             nth_error (l_lls st') i = nth_error (l_lls st) i) /\
  (0 < j -> l_n st' = Some (n + j - 1)) /\
  (j = 0 -> st' = st /\ s' = s).
Proof.
  revert n st s. induction j as [|j IH]; intros n st s H.
  - unfold states in H. simpl in H. inv_ok.
    repeat split; auto; lia.
  - apply em_states_S in H. destruct H as (st1 & ll & s1 & H1 & H2).
    apply em_iteration_spec in H1.
    destruct H1 as (e & s_e & _ & _ & _ & Hn & Hlls & Hln & _).
    apply IH in H2. destruct H2 as (L & Hbound & Hkeep & Hlast & Hzero).
    rewrite Hlls, update_length in L.
    split; [assumption|]. split.
    { intros _. destruct j; [lia|].
      rewrite Hlls, update_length in Hbound. lia. }
    split.
    { intros i Hi. rewrite Hkeep by lia. rewrite Hlls.
      apply nth_error_update_other. lia. }
    split.
    { intros _. destruct j as [|j].
      - destruct (Hzero eq_refl) as [-> _]. rewrite Hln. f_equal. lia.
      - rewrite Hlast by lia. f_equal. lia. }
    discriminate.
Qed.

(** The entry an iteration writes is still there at the end. *)
Lemma em_states_entry (i r n : nat) (st : Locals) (s : World)
      (st_i : Locals) (s_i : World) (st1 : Locals) (ll : float) (s1 : World)
      (st' : Locals) (s' : World) :
  states i n st s = Ok (st_i, s_i) ->
  body (n + i) st_i s_i = Ok ((st1, ll), s1) ->
  states r (S (n + i)) st1 s1 = Ok (st', s') ->
  nth_error (l_lls st') (n + i) = Some ll.
Proof.
  intros _ H1 H2.
  apply em_iteration_spec in H1.
  destruct H1 as (e & s_e & _ & _ & _ & Hn & Hlls & _).
  apply em_states_trace in H2. destruct H2 as (_ & _ & Hkeep & _).
  rewrite Hkeep by lia. rewrite Hlls. apply nth_error_update. assumption.
Qed.

(** [em_loop] runs the body some [j] times: at least once when there is
    an iteration to run, with the rule false after every pass but the
    last, and true after the last one when it stops short. *)
Lemma em_loop_spec (todo n : nat) (st : Locals) (s : World)
      (st' : Locals) (s' : World) :
  loop todo n st s = Ok (st', s') ->
  exists j,
    j <= todo /\
    states j n st s = Ok (st', s') /\
    (0 < todo -> 0 < j) /\
    (forall i, i + 1 < j -> stop_rule tol (l_lls st') (n + i) = false) /\
    (j < todo -> stop_rule tol (l_lls st') (n + j - 1) = true).
Proof.
  revert n st s. induction todo as [|todo IH]; intros n st s H.
  - unfold loop in H. simpl in H. inv_ok.
    exists 0. repeat split; auto; try lia.
  - unfold loop in H. simpl in H. inv_ok.
    match goal with H1 : em_iteration _ _ _ _ _ _ _ _ _ = Ok _ |- _ =>
      rename H1 into Hbody end.
    match goal with H1 : converged _ _ _ _ = Ok _ |- _ =>
      rename H1 into Hconv end.
    pose proof Hbody as Hb. apply em_iteration_spec in Hb.
    destruct Hb as (e & s_e & _ & _ & _ & Hn & Hlls & _).
    apply converged_spec in Hconv;
      [|rewrite Hlls; apply nth_error_update; assumption].
    match type of H with (if ?b then _ else _) _ = _ => destruct b eqn:Eb end.
    + (* break *)
      inv_ok. exists 1. repeat split; try lia.
      * apply em_states_S. do 3 eexists. split; [exact Hbody|reflexivity].
      * intros _. replace (n + 1 - 1) with n by lia. congruence.
    + (* next iteration *)
      fold loop in H. apply IH in H.
      destruct H as (j & Hj & Hrun & Hpos & Hfalse & Htrue).
      exists (S j). split; [lia|]. split.
      { apply em_states_S. do 3 eexists. split; [exact Hbody|exact Hrun]. }
      split; [lia|]. split.
      * intros [|i] Hi.
        -- rewrite Nat.add_0_r.
           pose proof Hrun as Hr. apply em_states_trace in Hr.
           destruct Hr as (_ & _ & Hkeep & _).
           rewrite Hconv. apply stop_rule_prefix.
           intros i Hi'. apply Hkeep. lia.
        -- replace (n + S i) with (S n + i) by lia. apply Hfalse. lia.
      * intros Hlt. replace (n + S j - 1) with (S n + j - 1) by lia.
        apply Htrue. lia.
Qed.

End Loop.

(** ** Entering and leaving [fit] *)

Lemma dim_Ok (z : Z) (m : nat) : Np.dim z = Ok m -> (0 <= z)%Z /\ m = Z.to_nat z.
Proof.
  unfold Np.dim. destruct (z <? 0)%Z eqn:E; intros H; inv_ok.
  apply Z.ltb_ge in E. auto.
Qed.

Lemma fit_enter_spec (co : Collaborators) (x A : mat) (w : tens)
      (pi0 : option vec) (maxiter : Z) (s : World) (st0 : Locals) (s0 : World) :
  fit_enter co x A w pi0 maxiter s = Ok (st0, s0) ->
  (0 <= maxiter)%Z /\
  l_lls st0 = repeat nan (Z.to_nat maxiter) /\
  l_A st0 = A /\ l_w st0 = w /\ l_pi0 st0 = pi0 /\ l_n st0 = None /\
  initial_phi co (self s0) x w = Ok (l_phi st0) /\
  frame false s s0 /\ self_pi0 (self s0) = pi0.
Proof.
  unfold fit_enter, get_self. intros H. inv_ok.
  match goal with H1 : Np.dim _ = Ok _ |- _ =>
    apply dim_Ok in H1; destruct H1 as [? ->] end.
  match goal with H1 : set_pi0 _ _ = Ok _ |- _ =>
    apply set_pi0_frame in H1; destruct H1 as [? ?] end.
  simpl. repeat (split; [solve [auto]|]). assumption.
Qed.

Section Run.

Variable co : Collaborators.
Variables (y : list Z) (x : mat) (fis : bool) (tol : float).
Variables (sess : list Z) (B : float).

Let states := em_states co y x fis sess B.
Let loop := em_loop co y x fis tol sess B.

Lemma em_states_iterations (j : nat) (st : Locals) (s : World)
      (st' : Locals) (s' : World) :
  states j 0 st s = Ok (st', s') -> l_n st = None -> iterations st' = j.
Proof.
  intros H Hn. apply em_states_trace in H.
  destruct H as (_ & _ & _ & Hlast & Hzero). unfold iterations.
  destruct j as [|j].
  - destruct (Hzero eq_refl) as [-> _]. now rewrite Hn.
  - rewrite Hlast by lia. f_equal. lia.
Qed.

(** Every pass ran on the locals the earlier passes left: its E step
    read them and left the object alone, its M step took the E step's
    arrays, and its [ll] is the entry of the final trace at its index. *)
Lemma em_states_history (j n : nat) (st : Locals) (s : World)
      (st' : Locals) (s' : World) :
  states j n st s = Ok (st', s') ->
  forall i, i < j ->
    exists st_i s_i st_i' s_i' e s_e,
      states i n st s = Ok (st_i, s_i) /\
      states (S i) n st s = Ok (st_i', s_i') /\
      E_step co y (l_A st_i) (l_phi st_i) (l_pi0 st_i) sess B s_i = Ok (e, s_e) /\
      self s_e = self s_i /\
      _updateParams co y x (e_pBack e) (e_beta e) (e_alpha e) (e_cs e)
                    (l_A st_i) (l_phi st_i) (l_w st_i) fis s_e
      = Ok ((l_A st_i', l_w st_i', l_phi st_i', l_pi0 st_i'), s_i') /\
      nth_error (l_lls st') (n + i) = Some (e_ll e).
Proof.
  intros H i Hi.
  replace j with (i + S (j - S i)) in H by lia.
  apply em_states_split in H. destruct H as (st_i & s_i & H1 & H2).
  fold states in H2. apply em_states_S in H2.
  destruct H2 as (st1 & ll & s1 & H2 & H3).
  pose proof H2 as Hb. apply em_iteration_spec in Hb.
  destruct Hb as (e & s_e & He & Hself & -> & _ & _ & _ & Hup).
  exists st_i, s_i, st1, s1, e, s_e. split; [assumption|]. split.
  { replace (S i) with (i + 1) by lia. apply em_states_split.
    exists st_i, s_i. split; [assumption|]. apply em_states_S.
    do 3 eexists. split; [exact H2|reflexivity]. }
  split; [assumption|]. split; [assumption|]. split; [assumption|].
  eapply em_states_entry; eassumption.
Qed.

(** Conversely: when the body can run [todo] times and the rule is
    false after each pass but possibly the last, the loop runs them all. *)
Lemma em_loop_complete (todo n : nat) (st : Locals) (s : World)
      (st' : Locals) (s' : World) :
  states todo n st s = Ok (st', s') ->
  (forall i, i + 1 < todo -> stop_rule tol (l_lls st') (n + i) = false) ->
  loop todo n st s = Ok (st', s').
Proof.
  revert n st s. induction todo as [|todo IH]; intros n st s H Hrule.
  - exact H.
  - apply em_states_S in H. destruct H as (st1 & ll & s1 & H1 & H2).
    unfold loop. simpl. rewrite H1.
    pose proof H1 as Hb. apply em_iteration_spec in Hb.
    destruct Hb as (e & s_e & _ & _ & _ & Hn & Hlls & _).
    assert (nth_error (l_lls st1) n = Some ll) as Hentry
        by (rewrite Hlls; apply nth_error_update; assumption).
    assert (length (l_lls st1) = length (l_lls st)) as Hlen
        by (rewrite Hlls; apply update_length).
    assert (exists b, converged tol n (l_lls st1) ll = Ok b) as [b Hb].
    { unfold converged. destruct (5 <? n) eqn:E; [|eauto].
      apply Nat.ltb_lt in E.
      replace (Z.of_nat n - 5)%Z with (Z.of_nat (n - 5)) by lia.
      unfold Np.index. rewrite wrap_of_nat by lia. simpl.
      destruct (nth_error (l_lls st1) (n - 5)) eqn:E'; [eauto|].
      apply nth_error_None in E'. lia. }
    unfold lift. rewrite Hb.
    pose proof Hb as Hc. apply converged_spec in Hc; [|assumption].
    destruct todo as [|todo].
    + unfold states in H2. simpl in H2. inv_ok.
      match goal with |- (if ?c then _ else _) _ = _ => destruct c end;
        reflexivity.
    + assert (b = false) as ->.
      { rewrite Hc. specialize (Hrule 0). rewrite Nat.add_0_r in Hrule.
        rewrite <- Hrule by lia. apply stop_rule_prefix.
        pose proof H2 as Hr. apply em_states_trace in Hr.
        destruct Hr as (_ & _ & Hkeep & _).
        intros i Hi. symmetry. apply Hkeep. lia. }
      apply IH; [assumption|].
      intros i Hi. replace (S n + i) with (n + S i) by lia. apply Hrule. lia.
Qed.

End Run.

(** The run of [fit]: the locals it enters the loop with, the number
    [N] of passes, and the locals it returns. *)
Lemma fit_locals_run (co : Collaborators) (y : list Z) (x A : mat) (w : tens)
      (pi0 : option vec) (fis : bool) (maxiter : Z) (tol : float)
      (sess : option (list Z)) (B : float) (s : World) (st' : Locals) (s' : World) :
  fit_locals co y x A w pi0 fis maxiter tol sess B s = Ok (st', s') ->
  exists st0 s0 N,
    fit_enter co x A w pi0 maxiter s = Ok (st0, s0) /\
    em_states co y x fis (sessions_of (self s0) sess) B N 0 st0 s0 = Ok (st', s') /\
    iterations st' = N /\
    N <= Z.to_nat maxiter /\
    (0 < Z.to_nat maxiter -> 0 < N) /\
    (forall n, n + 1 < N -> stop_rule tol (l_lls st') n = false) /\
    (N < Z.to_nat maxiter -> stop_rule tol (l_lls st') (N - 1) = true).
Proof.
  unfold fit_locals, get_self. intros H. inv_ok.
  match goal with H1 : fit_enter _ _ _ _ _ _ _ = Ok _ |- _ =>
    rename H1 into Henter end.
  apply em_loop_spec in H.
  destruct H as (N & HN & Hrun & Hpos & Hfalse & Htrue).
  do 3 eexists. split; [exact Henter|]. split; [exact Hrun|].
  apply fit_enter_spec in Henter.
  destruct Henter as (_ & _ & _ & _ & _ & Hn & _).
  split; [eapply em_states_iterations; eassumption|].
  repeat split; auto.
Qed.

Lemma sessions_of_same (g g' : GLMHMM) (sess : option (list Z)) :
  self_n g' = self_n g -> sessions_of g' sess = sessions_of g sess.
Proof.
  intros H. unfold sessions_of. destruct sess; [reflexivity|]. now rewrite H.
Qed.

(** The bounds on the number of passes: never more than [maxiter], and
    never fewer than seven unless [maxiter] is smaller. *)
Lemma fit_locals_bounds (co : Collaborators) (y : list Z) (x A : mat) (w : tens)
      (pi0 : option vec) (fis : bool) (maxiter : Z) (tol : float)
      (sess : option (list Z)) (B : float) (s : World) (st' : Locals) (s' : World) :
  fit_locals co y x A w pi0 fis maxiter tol sess B s = Ok (st', s') ->
  Nat.min (Z.to_nat maxiter) 7 <= iterations st' /\
  iterations st' <= Z.to_nat maxiter.
Proof.
  intros H. apply fit_locals_run in H.
  destruct H as (st0 & s0 & N & _ & _ & HN & Hle & _ & _ & Htrue).
  rewrite HN. split; [|assumption].
  destruct (Nat.lt_ge_cases N (Z.to_nat maxiter)) as [Hlt | Hge]; [|lia].
  specialize (Htrue Hlt). unfold stop_rule in Htrue.
  apply andb_true_iff in Htrue. destruct Htrue as [H5 _].
  apply Nat.ltb_lt in H5. lia.
Qed.

(** What [fit] returns are the locals at its [return]. *)
Lemma fit_of_locals (co : Collaborators) (y : list Z) (x A : mat) (w : tens)
      (pi0 : option vec) (fis : bool) (maxiter : Z) (tol : float)
      (sess : option (list Z)) (B : float) (s : World) (st' : Locals) (s' : World) :
  fit_locals co y x A w pi0 fis maxiter tol sess B s = Ok (st', s') ->
  fit co y x A w pi0 fis maxiter tol sess B s
  = Ok ((l_lls st', l_A st', l_w st', l_pi0 st'), s').
Proof.
  intros H. unfold fit. simpl. rewrite H. reflexivity.
Qed.

(** Every pass changes of the world what the M step may change, and
    issues numpy's warnings only; with [fit_init_states] off it leaves
    [pi0] alone. *)
Lemma em_iteration_frame (co : Collaborators) (y : list Z) (x : mat)
      (fis : bool) (sess : list Z) (B : float) (n : nat) (st : Locals)
      (s : World) (st' : Locals) (ll : float) (s' : World) :
  em_iteration co y x fis sess B n st s = Ok ((st', ll), s') ->
  frame (negb fis) s s' /\ l_pi0 st' = self_pi0 (self s').
Proof.
  intros H. apply em_iteration_spec in H.
  destruct H as (e & s_e & He & _ & _ & _ & _ & _ & H).
  apply E_step_world in He. destruct He as [Hs Hw].
  apply updateParams_frame in H. destruct H as [F P].
  split; [|assumption].
  eapply frame_trans; [|exact F].
  apply frame_weaken, frame_same_object; assumption.
Qed.

Lemma em_states_frame (co : Collaborators) (y : list Z) (x : mat)
      (fis : bool) (sess : list Z) (B : float) (j n : nat) (st : Locals)
      (s : World) (st' : Locals) (s' : World) :
  em_states co y x fis sess B j n st s = Ok (st', s') ->
  frame (negb fis) s s' /\
  (l_pi0 st = self_pi0 (self s) -> l_pi0 st' = self_pi0 (self s')).
Proof.
  revert n st s. induction j as [|j IH]; intros n st s H.
  - simpl in H. inv_ok. split; [apply frame_refl | auto].
  - apply em_states_S in H. destruct H as (st1 & ll & s1 & H1 & H2).
    apply em_iteration_frame in H1. destruct H1 as [F1 P1].
    apply IH in H2. destruct H2 as [F2 P2].
    split; [eapply frame_trans; eassumption | auto].
Qed.

(** A call of [fit] that reaches its [return] ran as many passes as its
    loop variable tells; pass [i] took the locals the passes before it
    left, ran the E step on them without touching the object, handed the
    E step's arrays to [_updateParams], and its log-likelihood is entry
    [i] of the trace. *)
Lemma fit_locals_history (co : Collaborators) (y : list Z) (x A : mat) (w : tens)
      (pi0 : option vec) (fis : bool) (maxiter : Z) (tol : float)
      (sess : option (list Z)) (B : float) (s : World)
      (st' : Locals) (s' : World) :
  fit_locals co y x A w pi0 fis maxiter tol sess B s = Ok (st', s') ->
  exists (st0 : Locals) (s0 : World),
    fit_enter co x A w pi0 maxiter s = Ok (st0, s0) /\
    em_states co y x fis (sessions_of (self s) sess) B (iterations st') 0 st0 s0
    = Ok (st', s') /\
    forall i, i < iterations st' ->
      exists (st_i : Locals) (s_i : World) (st_i' : Locals) (s_i' : World)
             (e : EStep) (s_e : World),
        em_states co y x fis (sessions_of (self s) sess) B i 0 st0 s0
        = Ok (st_i, s_i) /\
        em_states co y x fis (sessions_of (self s) sess) B (S i) 0 st0 s0
        = Ok (st_i', s_i') /\
        E_step co y (l_A st_i) (l_phi st_i) (l_pi0 st_i)
               (sessions_of (self s) sess) B s_i = Ok (e, s_e) /\
        self s_e = self s_i /\
        _updateParams co y x (e_pBack e) (e_beta e) (e_alpha e) (e_cs e)
                      (l_A st_i) (l_phi st_i) (l_w st_i) fis s_e
        = Ok ((l_A st_i', l_w st_i', l_phi st_i', l_pi0 st_i'), s_i') /\
        nth_error (l_lls st') i = Some (e_ll e) /\
        self_n (self s_i) = self_n (self s) /\
        self_k (self s_i) = self_k (self s).
Proof.
  intros H. apply fit_locals_run in H.
  destruct H as (st0 & s0 & N & Henter & Hrun & HN & _).
  pose proof Henter as He. apply fit_enter_spec in He.
  destruct He as (_ & _ & _ & _ & _ & _ & _ & (_ & Hn0 & _ & _ & Hk0 & _) & _).
  rewrite (sessions_of_same _ _ sess Hn0) in Hrun.
  exists st0, s0. split; [exact Henter|]. rewrite HN. split; [exact Hrun|].
  intros i Hi.
  destruct (em_states_history _ _ _ _ _ _ _ _ _ Hrun Hi)
    as (st_i & s_i & st_i' & s_i' & e & s_e & H1 & H2 & H3 & H4 & H5 & H6).
  pose proof H1 as Hf. apply em_states_frame in Hf.
  destruct Hf as [(_ & Hn & _ & _ & Hk & _) _].
  exists st_i, s_i, st_i', s_i', e, s_e.
  repeat split; try assumption; congruence.
Qed.

(** ** The fitted run: stopping, trace, warnings, initial states *)

(** C3.  [fit] leaves its loop early exactly at the first iteration
    index [n] with [n > 5] and [lls[n-5] + tol >= lls[n]], the current
    log-likelihood against the one recorded five iterations before;
    when no index below [maxiter] meets the rule, the body runs
    [maxiter] times. *)
Theorem fit_stops_on_lagged_rule (co : Collaborators) (y : list Z) (x A : mat)
        (w : tens) (pi0 : option vec) (fis : bool) (maxiter : Z) (tol : float)
        (sess : option (list Z)) (B : float) (s : World)
        (st' : Locals) (s' : World) :
  fit_locals co y x A w pi0 fis maxiter tol sess B s = Ok (st', s') ->
  iterations st' <= Z.to_nat maxiter /\
  (forall n, n + 1 < iterations st' -> stop_rule tol (l_lls st') n = false) /\
  (iterations st' < Z.to_nat maxiter ->
   0 < iterations st' /\
   stop_rule tol (l_lls st') (iterations st' - 1) = true) /\
  ((forall n, n < Z.to_nat maxiter -> stop_rule tol (l_lls st') n = false) ->
   iterations st' = Z.to_nat maxiter) /\
  (forall n,
      stop_rule tol (l_lls st') n = true <->
      5 < n /\
      (nth n (l_lls st') nan <=? nth (n - 5) (l_lls st') nan + tol)%float = true).
Proof.
  intros H. apply fit_locals_run in H.
  destruct H as (st0 & s0 & N & _ & _ & HN & Hle & Hpos & Hfalse & Htrue).
  rewrite HN. split; [assumption|]. split; [assumption|]. split.
  { intros Hlt. split; [apply Hpos; lia | apply Htrue; assumption]. }
  split.
  { intros Hnever.
    destruct (Nat.eq_dec N (Z.to_nat maxiter)) as [E | E]; [assumption|].
    assert (N < Z.to_nat maxiter) as Hlt by lia.
    specialize (Htrue Hlt). rewrite Hnever in Htrue by lia. discriminate. }
  intros n. unfold stop_rule. rewrite andb_true_iff, Nat.ltb_lt. reflexivity.
Qed.

(** C5.  Leaving [sess] out is passing the one-session boundaries
    [[0, n]]. *)
Theorem fit_default_session (co : Collaborators) (y : list Z) (x A : mat)
        (w : tens) (pi0 : option vec) (fis : bool) (maxiter : Z) (tol : float)
        (B : float) (s : World) :
  fit co y x A w pi0 fis maxiter tol None B s
  = fit co y x A w pi0 fis maxiter tol
        (Some [0%Z; Z.of_nat (self_n (self s))]) B s.
Proof.
  unfold fit, fit_locals, get_self. simpl.
  destruct (fit_enter co x A w pi0 maxiter s) as [[st0 s0] | e] eqn:E;
    [|reflexivity].
  apply fit_enter_spec in E.
  destruct E as (_ & _ & _ & _ & _ & _ & _ & (_ & Hn & _) & _).
  unfold sessions_of. rewrite Hn. reflexivity.
Qed.

(** C6.  A call of [fit] that reaches its [return] returns the trace
    together with [A], [w] and [pi0] as the last pass left them; the
    trace has [maxiter] entries; the passes that ran are those below the
    loop variable's count, at least seven unless [maxiter] is smaller;
    entry [i] of a pass that ran is the log-likelihood the E step of
    that pass computed, on the parameters the earlier passes left; and
    every entry from the count on is NaN. *)
Theorem fit_returns_trace (co : Collaborators) (y : list Z) (x A : mat)
        (w : tens) (pi0 : option vec) (fis : bool) (maxiter : Z) (tol : float)
        (sess : option (list Z)) (B : float) (s : World)
        (st' : Locals) (s' : World) :
  fit_locals co y x A w pi0 fis maxiter tol sess B s = Ok (st', s') ->
  fit co y x A w pi0 fis maxiter tol sess B s
  = Ok ((l_lls st', l_A st', l_w st', l_pi0 st'), s') /\
  (0 <= maxiter)%Z /\
  length (l_lls st') = Z.to_nat maxiter /\
  Nat.min (Z.to_nat maxiter) 7 <= iterations st' /\
  iterations st' <= Z.to_nat maxiter /\
  (exists (st0 : Locals) (s0 : World),
      fit_enter co x A w pi0 maxiter s = Ok (st0, s0) /\
      em_states co y x fis (sessions_of (self s) sess) B (iterations st') 0 st0 s0
      = Ok (st', s') /\
      forall i, i < iterations st' ->
        exists (st_i : Locals) (s_i : World) (e : EStep) (s_e : World),
          em_states co y x fis (sessions_of (self s) sess) B i 0 st0 s0
          = Ok (st_i, s_i) /\
          E_step co y (l_A st_i) (l_phi st_i) (l_pi0 st_i)
                 (sessions_of (self s) sess) B s_i = Ok (e, s_e) /\
          nth_error (l_lls st') i = Some (e_ll e)) /\
  (forall i, iterations st' <= i -> i < Z.to_nat maxiter ->
             nth_error (l_lls st') i = Some nan).
Proof.
  intros H.
  pose proof (fit_of_locals _ _ _ _ _ _ _ _ _ _ _ _ H) as Hfit.
  pose proof (fit_locals_bounds _ _ _ _ _ _ _ _ _ _ _ _ H) as [Hlo Hhi].
  apply fit_locals_history in H.
  destruct H as (st0 & s0 & Henter & Hrun & Hall).
  pose proof Henter as He. apply fit_enter_spec in He.
  destruct He as (Hmax & Hlls & _).
  pose proof Hrun as Ht. apply em_states_trace in Ht.
  destruct Ht as (Hlen & _ & Hkeep & _).
  split; [exact Hfit|]. split; [assumption|]. split.
  { rewrite Hlen, Hlls. apply repeat_length. }
  split; [assumption|]. split; [assumption|]. split.
  - exists st0, s0. split; [assumption|]. split; [assumption|].
    intros i Hi.
    destruct (Hall i Hi)
      as (st_i & s_i & _ & _ & e & s_e & H1 & _ & H3 & _ & _ & H6 & _).
    exists st_i, s_i, e, s_e. auto.
  - intros i Hi Hmaxi. rewrite Hkeep by lia. rewrite Hlls.
    rewrite nth_error_repeat by assumption. reflexivity.
Qed.

(** C8, as the code has it.  [fit] has no statement that issues a
    [NonConvergedWarning]: when the body can run [maxiter] times and
    the rule is false at every index, [fit] reaches its [return] after
    [maxiter] passes and returns the trace and the parameters of the
    last one, and among the warnings issued during the call there is no
    [NonConvergedWarning]. *)
Theorem fit_maxiter_returns_unwarned (co : Collaborators) (y : list Z)
        (x A : mat) (w : tens) (pi0 : option vec) (fis : bool) (maxiter : Z)
        (tol : float) (sess : option (list Z)) (B : float) (s : World)
        (st0 : Locals) (s0 : World) (st' : Locals) (s' : World) :
  fit_enter co x A w pi0 maxiter s = Ok (st0, s0) ->
  em_states co y x fis (sessions_of (self s0) sess) B (Z.to_nat maxiter) 0 st0 s0
  = Ok (st', s') ->
  (forall n, n < Z.to_nat maxiter -> stop_rule tol (l_lls st') n = false) ->
  fit_locals co y x A w pi0 fis maxiter tol sess B s = Ok (st', s') /\
  iterations st' = Z.to_nat maxiter /\
  fit co y x A w pi0 fis maxiter tol sess B s
  = Ok ((l_lls st', l_A st', l_w st', l_pi0 st'), s') /\
  exists ws : list warning,
    issued s' = issued s ++ ws /\ ~ In NonConvergedWarning ws.
Proof.
  intros Henter Hrun Hrule.
  assert (fit_locals co y x A w pi0 fis maxiter tol sess B s = Ok (st', s'))
    as Hloc.
  { unfold fit_locals, get_self. simpl. rewrite Henter.
    apply (@em_loop_complete co y x fis tol (sessions_of (self s0) sess) B
             (Z.to_nat maxiter) 0 st0 s0 st' s' Hrun).
    intros i Hi. apply Hrule. lia. }
  split; [exact Hloc|].
  pose proof Henter as He. apply fit_enter_spec in He.
  destruct He as (_ & _ & _ & _ & _ & Hn & _ & (W0 & _) & _).
  split; [eapply em_states_iterations; eassumption|].
  split; [apply fit_of_locals; exact Hloc|].
  apply em_states_frame in Hrun. destruct Hrun as [(W1 & _) _].
  destruct (only_runtime_trans W0 W1) as (ws & Hws & Hall).
  exists ws. split; [exact Hws|].
  intros Hin. rewrite Forall_forall in Hall. apply Hall in Hin. discriminate Hin.
Qed.

Lemma updateParams_keep (co : Collaborators) (y : list Z)
      (x gammas beta alpha : mat) (cs : vec) (A : mat) (phi w : tens)
      (s : World) (A' : mat) (w' phi' : tens) (pi0' : option vec) (s' : World) :
  _updateParams co y x gammas beta alpha cs A phi w false s
  = Ok ((A', w', phi', pi0'), s') ->
  _updateTransitions co (self s) y alpha beta cs A phi = Ok A' /\
  _updateObservations co y x w gammas s = Ok ((w', phi'), s') /\
  pi0' = self_pi0 (self s').
Proof.
  unfold _updateParams, get_self. intros H. inv_ok. simpl in *. inv_ok.
  repeat split; assumption.
Qed.

(** C9.  With [fit_init_states] off, [fit] returns the [pi0] it was
    given and leaves [self.pi0] at it; every iteration that ran saw
    that same [pi0] before and after its M step, while its [A] came
    from [_updateTransitions] and its [w] from [_updateObservations]. *)
Theorem fit_keeps_pi0 (co : Collaborators) (y : list Z) (x A : mat)
        (w : tens) (pi0 : option vec) (maxiter : Z) (tol : float)
        (sess : option (list Z)) (B : float) (s : World)
        (lls : vec) (A' : mat) (w' : tens) (pi0' : option vec) (s' : World) :
  fit co y x A w pi0 false maxiter tol sess B s = Ok ((lls, A', w', pi0'), s') ->
  pi0' = pi0 /\
  self_pi0 (self s') = pi0 /\
  exists (st0 : Locals) (s0 : World) (N : nat) (st' : Locals),
    fit_enter co x A w pi0 maxiter s = Ok (st0, s0) /\
    em_states co y x false (sessions_of (self s0) sess) B N 0 st0 s0
    = Ok (st', s') /\
    iterations st' = N /\
    Nat.min (Z.to_nat maxiter) 7 <= N /\
    (lls, A', w', pi0') = (l_lls st', l_A st', l_w st', l_pi0 st') /\
    forall i, i < N ->
      exists (st_i : Locals) (s_i : World) (st_i' : Locals) (s_i' : World)
             (e : EStep) (s_e : World),
        em_states co y x false (sessions_of (self s0) sess) B i 0 st0 s0
        = Ok (st_i, s_i) /\
        em_states co y x false (sessions_of (self s0) sess) B (S i) 0 st0 s0
        = Ok (st_i', s_i') /\
        l_pi0 st_i = pi0 /\ l_pi0 st_i' = pi0 /\
        self_pi0 (self s_i) = pi0 /\ self_pi0 (self s_i') = pi0 /\
        E_step co y (l_A st_i) (l_phi st_i) pi0 (sessions_of (self s0) sess) B s_i
        = Ok (e, s_e) /\
        self s_e = self s_i /\
        _updateTransitions co (self s_i) y (e_alpha e) (e_beta e) (e_cs e)
                           (l_A st_i) (l_phi st_i) = Ok (l_A st_i') /\
        _updateObservations co y x (l_w st_i) (e_pBack e) s_e
        = Ok ((l_w st_i', l_phi st_i'), s_i').
Proof.
  unfold fit. intros H. inv_ok.
  match goal with H1 : fit_locals _ _ _ _ _ _ _ _ _ _ _ _ = Ok _ |- _ =>
    pose proof (fit_locals_bounds _ _ _ _ _ _ _ _ _ _ _ _ H1) as [Hlo _];
    apply fit_locals_run in H1;
    destruct H1 as (st0 & s0 & N & Henter & Hrun & HN & _) end.
  pose proof Henter as He. apply fit_enter_spec in He.
  destruct He as (_ & _ & _ & _ & Hl0 & _ & _ & _ & Hs0).
  assert (forall j st_j s_j,
             em_states co y x false (sessions_of (self s0) sess) B j 0 st0 s0
             = Ok (st_j, s_j) ->
             l_pi0 st_j = pi0 /\ self_pi0 (self s_j) = pi0) as Hinv.
  { intros j st_j s_j Hj. apply em_states_frame in Hj.
    destruct Hj as [(_ & _ & _ & _ & _ & _ & _ & Hkeep) Hloc].
    rewrite Hloc by congruence. rewrite Hkeep by reflexivity. auto. }
  destruct (Hinv _ _ _ Hrun) as [Hp Hs].
  split; [assumption|]. split; [assumption|].
  exists st0, s0, N. eexists. split; [exact Henter|]. split; [exact Hrun|].
  split; [exact HN|]. split; [rewrite <- HN; exact Hlo|].
  split; [reflexivity|].
  intros i Hi.
  destruct (em_states_history _ _ _ _ _ _ _ _ _ Hrun Hi)
    as (st_i & s_i & st_i' & s_i' & e & s_e & H1 & H2 & H3 & H4 & Hup & _).
  destruct (Hinv _ _ _ H1) as [Hp1 Hs1].
  destruct (Hinv _ _ _ H2) as [Hp2 Hs2].
  apply updateParams_keep in Hup. destruct Hup as (Ht & Ho & _).
  exists st_i, s_i, st_i', s_i', e, s_e.
  rewrite H4 in Ht.
  repeat split; try assumption.
  rewrite <- Hp1. assumption.
Qed.

(** *** The theorems on the stand-in runs *)

(** C3 on a run that stops early: with a flat log-likelihood and
    [maxiter = 10] the loop leaves at index 6, after seven passes. *)
Lemma fit_stops_on_lagged_rule_witness :
  exists (st' : Locals) (s' : World),
    fit_locals Example.steady Example.y Example.x Example.A Example.w
               Example.pi0 false 10 Example.tol None 1%float Example.world
    = Ok (st', s') /\
    iterations st' = 7 /\
    (iterations st' <= Z.to_nat 10 /\
     (forall n, n + 1 < iterations st' ->
                stop_rule Example.tol (l_lls st') n = false) /\
     (iterations st' < Z.to_nat 10 ->
      0 < iterations st' /\
      stop_rule Example.tol (l_lls st') (iterations st' - 1) = true) /\
     ((forall n, n < Z.to_nat 10 ->
                 stop_rule Example.tol (l_lls st') n = false) ->
      iterations st' = Z.to_nat 10) /\
     (forall n,
         stop_rule Example.tol (l_lls st') n = true <->
         5 < n /\
         (nth n (l_lls st') nan
          <=? nth (n - 5) (l_lls st') nan + Example.tol)%float = true)).
Proof.
  do 2 eexists. split; [vm_compute; reflexivity|]. split; [reflexivity|].
  eapply (@fit_stops_on_lagged_rule
           Example.steady Example.y Example.x Example.A Example.w
           Example.pi0 false 10 Example.tol None 1%float Example.world).
  vm_compute. reflexivity.
Defined.

(** C6 on the same run: seven passes of ten, the trace ends in three
    NaN entries. *)
Lemma fit_returns_trace_witness :
  exists (st' : Locals) (s' : World),
    fit_locals Example.steady Example.y Example.x Example.A Example.w
               Example.pi0 false 10 Example.tol None 1%float Example.world
    = Ok (st', s') /\
    iterations st' = 7 /\
    fit Example.steady Example.y Example.x Example.A Example.w
        Example.pi0 false 10 Example.tol None 1%float Example.world
    = Ok ((l_lls st', l_A st', l_w st', l_pi0 st'), s') /\
    length (l_lls st') = 10 /\
    (forall i, 7 <= i -> i < 10 -> nth_error (l_lls st') i = Some nan).
Proof.
  do 2 eexists.
  match goal with |- ?P /\ _ => assert P as H by (vm_compute; reflexivity) end.
  split; [exact H|]. split; [reflexivity|].
  apply fit_returns_trace in H.
  destruct H as (Hfit & _ & Hlen & _ & _ & _ & Hnan).
  split; [exact Hfit|]. split; [exact Hlen|]. exact Hnan.
Defined.

(** C8 as the claim has it fails: eight iterations of a climbing
    log-likelihood over two sessions, at temperature [-1] on all-zero
    posteriors, reach [maxiter = 8] with the rule false at every index;
    [fit] returns, numpy has reported a division by zero in each of the
    sixteen powers, and no [NonConvergedWarning] was issued. *)
Lemma fit_reaches_maxiter_unwarned :
  exists (st' : Locals) (s' : World),
    fit_locals Example.vanishing Example.y Example.x Example.A Example.w
               Example.pi0 true 8 Example.tol (Some [0; 1; 2]%Z) (-1)%float
               Example.world
    = Ok (st', s') /\
    fit Example.vanishing Example.y Example.x Example.A Example.w
        Example.pi0 true 8 Example.tol (Some [0; 1; 2]%Z) (-1)%float
        Example.world
    = Ok ((l_lls st', l_A st', l_w st', l_pi0 st'), s') /\
    iterations st' = Z.to_nat 8 /\
    (forall n, n < Z.to_nat 8 -> stop_rule Example.tol (l_lls st') n = false) /\
    issued s' = repeat RuntimeWarning 16 /\
    ~ In NonConvergedWarning (issued s').
Proof.
  do 2 eexists. split; [vm_compute; reflexivity|].
  split; [vm_compute; reflexivity|]. split; [reflexivity|]. split.
  - intros n Hn. do 8 (destruct n as [|n]; [vm_compute; reflexivity|]).
    simpl in Hn. lia.
  - split; [reflexivity|]. simpl. intros H.
    repeat (destruct H as [H | H]; [discriminate H|]). exact H.
Qed.

(** The amended C8 on that run. *)
Lemma fit_maxiter_returns_unwarned_witness :
  exists (st0 : Locals) (s0 : World) (st' : Locals) (s' : World),
    fit_enter Example.vanishing Example.x Example.A Example.w Example.pi0 8
              Example.world = Ok (st0, s0) /\
    em_states Example.vanishing Example.y Example.x true
              (sessions_of (self s0) (Some [0; 1; 2]%Z)) (-1)%float
              (Z.to_nat 8) 0 st0 s0 = Ok (st', s') /\
    (forall n, n < Z.to_nat 8 -> stop_rule Example.tol (l_lls st') n = false) /\
    fit_locals Example.vanishing Example.y Example.x Example.A Example.w
               Example.pi0 true 8 Example.tol (Some [0; 1; 2]%Z) (-1)%float
               Example.world
    = Ok (st', s') /\
    iterations st' = Z.to_nat 8 /\
    fit Example.vanishing Example.y Example.x Example.A Example.w
        Example.pi0 true 8 Example.tol (Some [0; 1; 2]%Z) (-1)%float
        Example.world
    = Ok ((l_lls st', l_A st', l_w st', l_pi0 st'), s') /\
    exists ws : list warning,
      issued s' = issued Example.world ++ ws /\ ~ In NonConvergedWarning ws.
Proof.
  do 4 eexists.
  assert (forall n, n < Z.to_nat 8 ->
            stop_rule Example.tol
              [1; 3; 5; 7; 9; 11; 13; 15]%float n = false) as Hrule.
  { intros n Hn. do 8 (destruct n as [|n]; [vm_compute; reflexivity|]).
    simpl in Hn. lia. }
  split; [vm_compute; reflexivity|]. split; [vm_compute; reflexivity|].
  split; [exact Hrule|].
  eapply (@fit_maxiter_returns_unwarned
           Example.vanishing Example.y Example.x Example.A Example.w
           Example.pi0 true 8 Example.tol (Some [0; 1; 2]%Z) (-1)%float
           Example.world).
  - vm_compute. reflexivity.
  - vm_compute. reflexivity.
  - exact Hrule.
Defined.

(** C9 on a run with two sessions and [fit_init_states] off. *)
Lemma fit_keeps_pi0_witness :
  exists (lls : vec) (A' : mat) (w' : tens) (pi0' : option vec) (s' : World),
    fit Example.climbing Example.y Example.x Example.A Example.w
        Example.pi0 false 3 Example.tol (Some [0; 1; 2]%Z) 1%float
        Example.world
    = Ok ((lls, A', w', pi0'), s') /\
    pi0' = Example.pi0 /\
    self_pi0 (self s') = Example.pi0.
Proof.
  do 5 eexists.
  match goal with |- ?P /\ _ => assert P as H by (vm_compute; reflexivity) end.
  split; [exact H|].
  apply fit_keeps_pi0 in H. destruct H as (Hp & Hs & _). split; assumption.
Defined.

(** ** Slices and slice assignment *)

Lemma clip_in_range (len : nat) (i : Z) :
  (0 <= i <= Z.of_nat len)%Z -> Np.clip len i = Z.to_nat i.
Proof.
  intros H. unfold Np.clip.
  destruct (i <? 0)%Z eqn:E; [apply Z.ltb_lt in E; lia|].
  f_equal. lia.
Qed.

Lemma splice_length {A : Type} (l : list A) (a b : nat) (v : list A) :
  a <= b <= length l -> length v = b - a -> length (Np.splice l a b v) = length l.
Proof.
  intros H Hv. unfold Np.splice.
  rewrite !length_app, length_firstn, length_skipn. lia.
Qed.

Lemma splice_firstn {A : Type} (l : list A) (a b c : nat) (v : list A) :
  c <= a <= length l -> firstn c (Np.splice l a b v) = firstn c l.
Proof.
  intros H. unfold Np.splice.
  rewrite firstn_app, length_firstn.
  replace (c - Nat.min a (length l)) with 0 by lia.
  rewrite firstn_O, app_nil_r, firstn_firstn. f_equal. lia.
Qed.

Lemma splice_slice {A : Type} (l : list A) (a b : nat) (v : list A) :
  a <= b <= length l -> length v = b - a ->
  firstn (b - a) (skipn a (Np.splice l a b v)) = v.
Proof.
  intros H Hv. unfold Np.splice.
  rewrite skipn_app, length_firstn.
  replace (a - Nat.min a (length l)) with 0 by lia.
  rewrite skipn_all2 by (rewrite length_firstn; lia).
  simpl. rewrite firstn_app, Hv, Nat.sub_diag, firstn_O, app_nil_r.
  rewrite <- Hv. apply firstn_all.
Qed.

(** A slice below [c] reads the first [c] entries only. *)
Lemma slice_firstn {A : Type} (l l' : list A) (lo hi : Z) (c : nat) :
  length l' = length l -> (0 <= lo <= hi)%Z -> (hi <= Z.of_nat c)%Z ->
  c <= length l ->
  firstn c l' = firstn c l -> Np.slice l' lo hi = Np.slice l lo hi.
Proof.
  intros Hlen Hlo Hhi Hc Hfirst. unfold Np.slice.
  rewrite Hlen, !clip_in_range by lia.
  set (a := Z.to_nat lo). set (b := Z.to_nat hi).
  assert (a <= b <= c) as Hab by (unfold a, b; lia).
  assert (forall m : list A,
             firstn (b - a) (skipn a m) = skipn a (firstn b (firstn c m))) as E.
  { intros m. rewrite firstn_firstn. replace (Nat.min b c) with b by lia.
    rewrite skipn_firstn_comm. reflexivity. }
  rewrite !E, Hfirst. reflexivity.
Qed.

Lemma broadcast_length {A : Type} (len : nat) (v v' : list A) :
  Np.broadcast len v = Ok v' -> length v' = len.
Proof.
  unfold Np.broadcast. destruct (length v =? len) eqn:E.
  - intros H. inv_ok. now apply Nat.eqb_eq.
  - destruct v as [|a [|b v]]; intros H; inv_ok. apply repeat_length.
Qed.

Lemma broadcast2_length {A : Type} (len k : nat) (v v' : list (list A)) :
  Np.broadcast2 len k v = Ok v' -> length v' = len.
Proof.
  unfold Np.broadcast2. intros H. inv_ok. eapply broadcast_length; eassumption.
Qed.

(** An assignment to the slice [lo:hi]: the array keeps its length, the
    slice reads back the value written, and what lies below [lo] stays. *)
Lemma splice_spec {A : Type} (l : list A) (lo hi : Z) (v' : list A) :
  (0 <= lo <= hi)%Z -> (hi <= Z.of_nat (length l))%Z ->
  length v' = Np.clip (length l) hi - Np.clip (length l) lo ->
  let l' := Np.splice l (Np.clip (length l) lo) (Np.clip (length l) hi) v' in
  length l' = length l /\
  Np.slice l' lo hi = v' /\
  firstn (Z.to_nat lo) l' = firstn (Z.to_nat lo) l.
Proof.
  intros Hlo Hhi Hv. rewrite !clip_in_range in * by lia.
  set (a := Z.to_nat lo) in *. set (b := Z.to_nat hi) in *.
  assert (a <= b <= length l) as Hab by (unfold a, b; lia).
  simpl. split; [apply splice_length; assumption|]. split.
  - unfold Np.slice. rewrite splice_length by assumption.
    rewrite !clip_in_range by lia. fold a b. apply splice_slice; assumption.
  - apply splice_firstn. lia.
Qed.

Lemma set_slice_spec {A : Type} (l : list A) (lo hi : Z) (v l' : list A) :
  (0 <= lo <= hi)%Z -> (hi <= Z.of_nat (length l))%Z ->
  Np.set_slice l lo hi v = Ok l' ->
  length l' = length l /\
  Np.broadcast (Z.to_nat (hi - lo)) v = Ok (Np.slice l' lo hi) /\
  firstn (Z.to_nat lo) l' = firstn (Z.to_nat lo) l.
Proof.
  intros Hlo Hhi H. unfold Np.set_slice in H. inv_ok.
  match goal with H1 : Np.broadcast _ _ = Ok ?v' |- _ =>
    pose proof (broadcast_length _ _ H1) as Hlen;
    destruct (@splice_spec A l lo hi v' Hlo Hhi Hlen) as (L & S & F);
    rewrite !clip_in_range in H1 by lia;
    replace (Z.to_nat hi - Z.to_nat lo) with (Z.to_nat (hi - lo)) in H1 by lia
  end.
  split; [assumption|]. split; [|assumption]. rewrite S. assumption.
Qed.

Lemma set_slice2_spec {A : Type} (k : nat) (l : list (list A)) (lo hi : Z)
      (v l' : list (list A)) :
  (0 <= lo <= hi)%Z -> (hi <= Z.of_nat (length l))%Z ->
  Np.set_slice2 k l lo hi v = Ok l' ->
  length l' = length l /\
  Np.broadcast2 (Z.to_nat (hi - lo)) k v = Ok (Np.slice l' lo hi) /\
  firstn (Z.to_nat lo) l' = firstn (Z.to_nat lo) l.
Proof.
  intros Hlo Hhi H. unfold Np.set_slice2 in H. inv_ok.
  match goal with H1 : Np.broadcast2 _ _ _ = Ok ?v' |- _ =>
    pose proof (broadcast2_length _ _ _ H1) as Hlen;
    destruct (@splice_spec (list A) l lo hi v' Hlo Hhi Hlen) as (L & S & F);
    rewrite !clip_in_range in H1 by lia;
    replace (Z.to_nat hi - Z.to_nat lo) with (Z.to_nat (hi - lo)) in H1 by lia
  end.
  split; [assumption|]. split; [|assumption]. rewrite S. assumption.
Qed.

(** ** The E step, session by session *)

Section Sessions.

Variable co : Collaborators.
Variables (y : list Z) (A : mat) (phi : tens) (pi0 : option vec) (B : float).

Lemma session_step_inv (e : EStep) (lo hi : Z) (s : World)
      (e' : EStep) (s' : World) :
  session_step co y A phi pi0 B e (lo, hi) s = Ok (e', s') ->
  self s' = self s /\
  exists o : EStep,
    session_pass co (self s) y A phi pi0 (lo, hi) = Ok o /\
    e_ll e' = (e_ll e + e_ll o)%float /\
    Np.set_slice2 (self_k (self s)) (e_alpha e) lo hi (e_alpha o)
    = Ok (e_alpha e') /\
    Np.set_slice (e_cs e) lo hi (e_cs o) = Ok (e_cs e') /\
    Np.set_slice2 (self_k (self s)) (e_pBack e) lo hi
                  (map (map (fun p => power co p B)) (e_pBack o))
    = Ok (e_pBack e') /\
    Np.set_slice2 (self_k (self s)) (e_beta e) lo hi (e_beta o)
    = Ok (e_beta e') /\
    Np.set_slice (e_zhatBack e) lo hi (e_zhatBack o) = Ok (e_zhatBack e').
Proof.
  unfold session_step, session_pass, get_self. intros H. inv_ok.
  match goal with H1 : for_each _ _ _ = Ok _ |- _ =>
    apply warn_each_runtime in H1; destruct H1 as [Hs _] end.
  split; [exact Hs|].
  eexists. split.
  { simpl.
    match goal with H2 : backwardPass _ _ _ _ _ _ _ = Ok _ |- _ =>
      rewrite H2 end.
    reflexivity. }
  simpl. repeat split; assumption.
Qed.

Lemma fold_sessions_cons (step : EStep -> Z * Z -> M EStep) (p : Z * Z)
      (l : list (Z * Z)) (e : EStep) (s : World) :
  fold_sessions step (p :: l) e s
  = match step e p s with
    | Ok (e1, s1) => fold_sessions step l e1 s1
    | Raise x => Raise x
    end.
Proof. reflexivity. Qed.

(** The log-likelihood of an E step is the running sum of the
    per-session log-likelihoods, in session order. *)
Lemma fold_sessions_ll (pairs : list (Z * Z)) (e : EStep) (s : World)
      (e' : EStep) (s' : World) :
  fold_sessions (session_step co y A phi pi0 B) pairs e s = Ok (e', s') ->
  exists outs : list EStep,
    mapM (session_pass co (self s) y A phi pi0) pairs = Ok outs /\
    e_ll e' = fold_left (fun acc o => (acc + e_ll o)%float) outs (e_ll e).
Proof.
  revert e s. induction pairs as [|[lo hi] pairs IH]; intros e s H.
  - simpl in H. inv_ok. exists []. split; reflexivity.
  - rewrite fold_sessions_cons in H.
    destruct (session_step co y A phi pi0 B e (lo, hi) s) as [[e1 s1] | x] eqn:H1;
      [|discriminate].
    apply session_step_inv in H1.
    destruct H1 as (Hs1 & o & Hpass & Hll & _).
    apply IH in H. destruct H as (outs & Hmap & Hsum).
    rewrite Hs1 in Hmap.
    exists (o :: outs). split.
    + change (mapM (session_pass co (self s) y A phi pi0) ((lo, hi) :: pairs))
        with (o' <- session_pass co (self s) y A phi pi0 (lo, hi) ;;
              os <- mapM (session_pass co (self s) y A phi pi0) pairs ;;
              Ok (o' :: os)).
      rewrite Hpass. simpl. rewrite Hmap. reflexivity.
    + simpl. rewrite Hsum, Hll. reflexivity.
Qed.

Lemma session_step_stitch (n : nat) (e : EStep) (lo hi : Z) (s : World)
      (e' : EStep) (s' : World) (o : EStep) :
  session_step co y A phi pi0 B e (lo, hi) s = Ok (e', s') ->
  session_pass co (self s) y A phi pi0 (lo, hi) = Ok o ->
  full_length n e -> (0 <= lo <= hi)%Z -> (hi <= Z.of_nat n)%Z ->
  full_length n e' /\
  stitched co (self_k (self s)) B e' (lo, hi) o /\
  same_below (Z.to_nat lo) e e'.
Proof.
  intros H Hpass (L1 & L2 & L3 & L4 & L5) Hlo Hhi.
  pose (len_bound := fun (T : Type) (l : list T) (L : length l = n) =>
          Z.le_trans _ _ _ Hhi
            (proj1 (Nat2Z.inj_le _ _) (Nat.eq_le_incl _ _ (eq_sym L)))).
  apply session_step_inv in H.
  destruct H as (_ & o' & Hpass' & _ & H1 & H2 & H3 & H4 & H5).
  rewrite Hpass in Hpass'. injection Hpass' as <-.
  apply set_slice2_spec in H1; [|lia|exact (len_bound _ _ L1)].
  apply set_slice_spec in H2; [|lia|exact (len_bound _ _ L2)].
  apply set_slice2_spec in H3; [|lia|exact (len_bound _ _ L3)].
  apply set_slice2_spec in H4; [|lia|exact (len_bound _ _ L4)].
  apply set_slice_spec in H5; [|lia|exact (len_bound _ _ L5)].
  destruct H1 as (?&?&?), H2 as (?&?&?), H3 as (?&?&?), H4 as (?&?&?),
           H5 as (?&?&?).
  unfold full_length, stitched, same_below.
  repeat split; try assumption;
    (etransitivity; [eassumption | assumption]).
Qed.

Lemma stitched_later (n c : nat) (e1 e' : EStep) (lo hi : Z) (o : EStep) (k : nat) :
  stitched co k B e1 (lo, hi) o ->
  full_length n e1 -> full_length n e' -> same_below c e1 e' ->
  (0 <= lo <= hi)%Z -> (hi <= Z.of_nat c)%Z -> c <= n ->
  stitched co k B e' (lo, hi) o.
Proof.
  unfold stitched, full_length, same_below.
  intros (S1 & S2 & S3 & S4 & S5) (L1 & L2 & L3 & L4 & L5)
         (M1 & M2 & M3 & M4 & M5) (F1 & F2 & F3 & F4 & F5) Hlo Hhi Hc.
  rewrite (@slice_firstn _ (e_alpha e1) (e_alpha e') lo hi c) by (try lia; congruence).
  rewrite (@slice_firstn _ (e_cs e1) (e_cs e') lo hi c) by (try lia; congruence).
  rewrite (@slice_firstn _ (e_pBack e1) (e_pBack e') lo hi c) by (try lia; congruence).
  rewrite (@slice_firstn _ (e_beta e1) (e_beta e') lo hi c) by (try lia; congruence).
  rewrite (@slice_firstn _ (e_zhatBack e1) (e_zhatBack e') lo hi c) by (try lia; congruence).
  repeat split; assumption.
Qed.

Lemma same_below_trans (a b : nat) (e1 e2 e3 : EStep) :
  a <= b -> same_below a e1 e2 -> same_below b e2 e3 -> same_below a e1 e3.
Proof.
  unfold same_below.
  intros Hab (F1 & F2 & F3 & F4 & F5) (G1 & G2 & G3 & G4 & G5).
  assert (forall (T : Type) (l l' : list T),
             firstn b l' = firstn b l -> firstn a l' = firstn a l) as cut.
  { intros T l l' E. replace a with (Nat.min a b) by lia.
    rewrite <- !firstn_firstn, E. reflexivity. }
  repeat split; etransitivity; try eassumption; apply cut; assumption.
Qed.

(** Over chained sessions every session's range of the final arrays
    holds that session's pass. *)
Lemma fold_sessions_stitch (n : nat) (pairs : list (Z * Z)) (base : Z)
      (e : EStep) (s : World) (e' : EStep) (s' : World) (outs : list EStep) :
  fold_sessions (session_step co y A phi pi0 B) pairs e s = Ok (e', s') ->
  mapM (session_pass co (self s) y A phi pi0) pairs = Ok outs ->
  full_length n e -> (0 <= base)%Z -> chained base pairs (Z.of_nat n) ->
  full_length n e' /\
  same_below (Z.to_nat base) e e' /\
  Forall2 (stitched co (self_k (self s)) B e') pairs outs.
Proof.
  revert base e s outs.
  induction pairs as [|[lo hi] pairs IH]; intros base e s outs H Hmap Hfull Hb Hch.
  - simpl in H, Hmap. inv_ok. split; [assumption|]. split; [|constructor].
    unfold same_below. repeat split; reflexivity.
  - rewrite fold_sessions_cons in H.
    destruct (session_step co y A phi pi0 B e (lo, hi) s) as [[e1 s1] | x] eqn:H1;
      [|discriminate].
    pose proof H1 as Hw. apply session_step_world in Hw. destruct Hw as [Hw _].
    change (mapM (session_pass co (self s) y A phi pi0) ((lo, hi) :: pairs))
      with (o <- session_pass co (self s) y A phi pi0 (lo, hi) ;;
            os <- mapM (session_pass co (self s) y A phi pi0) pairs ;;
            Ok (o :: os)) in Hmap.
    destruct (session_pass co (self s) y A phi pi0 (lo, hi)) as [o | x] eqn:Hp;
      [|discriminate].
    simpl in Hmap.
    destruct (mapM (session_pass co (self s) y A phi pi0) pairs) as [os | x] eqn:Hm;
      [|discriminate].
    inv_ok. destruct Hch as (Hlo & Hhi & Hch).
    eapply session_step_stitch in H1; [|eassumption|eassumption|lia|lia].
    destruct H1 as (Hfull1 & Hst & Hsame).
    eapply IH with (base := hi) in H;
      [|rewrite Hw; eassumption|eassumption|lia|eassumption].
    destruct H as (Hfull' & Hsame' & Hall). rewrite Hw in Hall.
    split; [assumption|]. split.
    + eapply same_below_trans with (b := Z.to_nat hi); [lia| |eassumption].
      eapply same_below_trans with (b := Z.to_nat lo); [lia| |].
      * unfold same_below. repeat split; reflexivity.
      * assumption.
    + constructor; [|assumption].
      eapply stitched_later with (c := Z.to_nat hi); try eassumption; lia.
Qed.

End Sessions.

Lemma ascending_chained (sess : list Z) (lo n : Z) :
  ascending lo sess n ->
  match sess with
  | [] => True
  | b :: _ => chained b (boundaries sess) n
  end.
Proof.
  revert lo. induction sess as [|b rest IH]; intros lo H; [exact I|].
  destruct H as [Hb H]. unfold boundaries. simpl.
  destruct rest as [|b' rest]; [exact I|].
  simpl. pose proof (IH _ H) as IH'. destruct H as [Hb' H].
  split; [lia|]. split; [lia|]. exact IH'.
Qed.

Lemma e_init_full_length (g : GLMHMM) : full_length (self_n g) (e_init g).
Proof.
  unfold full_length, e_init, Np.zeros2, Np.zeros1. simpl.
  rewrite !repeat_length. repeat split; reflexivity.
Qed.

(** The E step: its log-likelihood is the sum, from zero, of the
    log-likelihoods of the forward passes over the sessions' slices;
    over ascending boundaries within the data, the range of each
    session in the arrays it returns holds that session's pass. *)
Lemma E_step_spec (co : Collaborators) (y : list Z) (A : mat) (phi : tens)
      (pi0 : option vec) (sess : list Z) (B : float) (s : World)
      (e : EStep) (s' : World) :
  E_step co y A phi pi0 sess B s = Ok (e, s') ->
  exists outs : list EStep,
    mapM (session_pass co (self s) y A phi pi0) (boundaries sess) = Ok outs /\
    e_ll e = fold_left (fun acc o => (acc + e_ll o)%float) outs 0%float /\
    (ascending 0 sess (Z.of_nat (self_n (self s))) ->
     Forall2 (stitched co (self_k (self s)) B e) (boundaries sess) outs).
Proof.
  unfold E_step, get_self. intros H. inv_ok.
  pose proof H as Hll. apply fold_sessions_ll in Hll.
  destruct Hll as (outs & Hmap & Hsum).
  exists outs. split; [assumption|]. split; [assumption|].
  intros Hasc. destruct sess as [|b rest].
  - simpl in Hmap. inv_ok. constructor.
  - pose proof (ascending_chained _ _ _ Hasc) as Hch.
    destruct Hasc as [Hb _].
    eapply fold_sessions_stitch with (base := b) in H;
      [|exact Hmap|apply e_init_full_length| |exact Hch]; [|lia].
    destruct H as (_ & _ & Hall). exact Hall.
Qed.

(** ** Every iteration of a fitted run *)

(** C7.  In a call of [fit] that reaches its [return], for every pass
    the loop ran (those below the loop variable's count, at least seven
    unless [maxiter] is smaller), entry [i] of the trace returned is the
    sum, in session order and from zero, of the log-likelihoods of the
    forward passes of pass [i], each run on its session's slice of [y]
    and [phi] alone; and over ascending boundaries within the data the
    arrays of that E step hold, on each session's index range, what that
    session's passes returned. *)
Theorem trace_sums_sessions (co : Collaborators) (y : list Z) (x A : mat)
        (w : tens) (pi0 : option vec) (fis : bool) (maxiter : Z) (tol : float)
        (sess : option (list Z)) (B : float) (s : World)
        (st' : Locals) (s' : World) :
  fit_locals co y x A w pi0 fis maxiter tol sess B s = Ok (st', s') ->
  fit co y x A w pi0 fis maxiter tol sess B s
  = Ok ((l_lls st', l_A st', l_w st', l_pi0 st'), s') /\
  Nat.min (Z.to_nat maxiter) 7 <= iterations st' /\
  iterations st' <= Z.to_nat maxiter /\
  exists (st0 : Locals) (s0 : World),
    fit_enter co x A w pi0 maxiter s = Ok (st0, s0) /\
    em_states co y x fis (sessions_of (self s) sess) B
              (iterations st') 0 st0 s0 = Ok (st', s') /\
    forall i, i < iterations st' ->
      exists (st_i : Locals) (s_i : World) (e : EStep) (s_e : World)
             (outs : list EStep),
        em_states co y x fis (sessions_of (self s) sess) B i 0 st0 s0
        = Ok (st_i, s_i) /\
        E_step co y (l_A st_i) (l_phi st_i) (l_pi0 st_i)
               (sessions_of (self s) sess) B s_i = Ok (e, s_e) /\
        mapM (session_pass co (self s_i) y (l_A st_i) (l_phi st_i) (l_pi0 st_i))
             (boundaries (sessions_of (self s) sess)) = Ok outs /\
        nth_error (l_lls st') i
        = Some (fold_left (fun acc o => (acc + e_ll o)%float) outs 0%float) /\
        (ascending 0 (sessions_of (self s) sess) (Z.of_nat (self_n (self s))) ->
         Forall2 (stitched co (self_k (self s)) B e)
                 (boundaries (sessions_of (self s) sess)) outs).
Proof.
  intros H.
  pose proof (fit_of_locals _ _ _ _ _ _ _ _ _ _ _ _ H) as Hfit.
  pose proof (fit_locals_bounds _ _ _ _ _ _ _ _ _ _ _ _ H) as [Hlo Hhi].
  apply fit_locals_history in H.
  destruct H as (st0 & s0 & Henter & Hrun & Hall).
  split; [exact Hfit|]. split; [exact Hlo|]. split; [exact Hhi|].
  exists st0, s0. split; [assumption|]. split; [assumption|].
  intros i Hi. destruct (Hall i Hi)
    as (st_i & s_i & _ & _ & e & s_e & H1 & _ & H3 & _ & _ & H6 & Hn & Hk).
  pose proof H3 as Hs. apply E_step_spec in Hs.
  destruct Hs as (outs & Hmap & Hsum & Hst).
  exists st_i, s_i, e, s_e, outs. rewrite <- Hsum, <- Hn, <- Hk.
  repeat split; assumption.
Qed.

(** C4.  In a call of [fit] that reaches its [return], for every pass
    the loop ran (those below the loop variable's count, at least seven
    unless [maxiter] is smaller), the responsibilities passed to
    [_updateParams] are the posterior array of that pass's E step,
    computed on the parameters the passes before left, with the object
    unwritten in between; over ascending boundaries within the data its
    rows over each session are the posteriors of that session's backward
    pass raised entry by entry to the power [B], and the posteriors
    themselves when [B] is 1. *)
Theorem responsibilities_tempered (co : Collaborators) (y : list Z) (x A : mat)
        (w : tens) (pi0 : option vec) (fis : bool) (maxiter : Z) (tol : float)
        (sess : option (list Z)) (B : float) (s : World)
        (st' : Locals) (s' : World) :
  fit_locals co y x A w pi0 fis maxiter tol sess B s = Ok (st', s') ->
  fit co y x A w pi0 fis maxiter tol sess B s
  = Ok ((l_lls st', l_A st', l_w st', l_pi0 st'), s') /\
  Nat.min (Z.to_nat maxiter) 7 <= iterations st' /\
  iterations st' <= Z.to_nat maxiter /\
  exists (st0 : Locals) (s0 : World),
    fit_enter co x A w pi0 maxiter s = Ok (st0, s0) /\
    em_states co y x fis (sessions_of (self s) sess) B
              (iterations st') 0 st0 s0 = Ok (st', s') /\
    forall i, i < iterations st' ->
      exists (st_i : Locals) (s_i : World) (st_i' : Locals) (s_i' : World)
             (e : EStep) (s_e : World) (outs : list EStep),
        em_states co y x fis (sessions_of (self s) sess) B i 0 st0 s0
        = Ok (st_i, s_i) /\
        em_states co y x fis (sessions_of (self s) sess) B (S i) 0 st0 s0
        = Ok (st_i', s_i') /\
        E_step co y (l_A st_i) (l_phi st_i) (l_pi0 st_i)
               (sessions_of (self s) sess) B s_i = Ok (e, s_e) /\
        self s_e = self s_i /\
        mapM (session_pass co (self s_i) y (l_A st_i) (l_phi st_i) (l_pi0 st_i))
             (boundaries (sessions_of (self s) sess)) = Ok outs /\
        _updateParams co y x (e_pBack e) (e_beta e) (e_alpha e) (e_cs e)
                      (l_A st_i) (l_phi st_i) (l_w st_i) fis s_e
        = Ok ((l_A st_i', l_w st_i', l_phi st_i', l_pi0 st_i'), s_i') /\
        (ascending 0 (sessions_of (self s) sess) (Z.of_nat (self_n (self s))) ->
         Forall2 (fun lohi o =>
                    handed_over (self_k (self s)) (e_pBack e) lohi
                                (map (map (fun p => power co p B)) (e_pBack o)))
                 (boundaries (sessions_of (self s) sess)) outs /\
         (B = 1%float -> (forall p, power co p 1%float = p) ->
          Forall2 (fun lohi o =>
                     handed_over (self_k (self s)) (e_pBack e) lohi (e_pBack o))
                  (boundaries (sessions_of (self s) sess)) outs)).
Proof.
  intros H.
  pose proof (fit_of_locals _ _ _ _ _ _ _ _ _ _ _ _ H) as Hfit.
  pose proof (fit_locals_bounds _ _ _ _ _ _ _ _ _ _ _ _ H) as [Hlo Hhi].
  apply fit_locals_history in H.
  destruct H as (st0 & s0 & Henter & Hrun & Hall).
  split; [exact Hfit|]. split; [exact Hlo|]. split; [exact Hhi|].
  exists st0, s0. split; [assumption|]. split; [assumption|].
  intros i Hi. destruct (Hall i Hi)
    as (st_i & s_i & st_i' & s_i' & e & s_e & H1 & H2 & H3 & H4 & H5 & _ & Hn & Hk).
  pose proof H3 as Hs. apply E_step_spec in Hs.
  destruct Hs as (outs & Hmap & _ & Hst).
  exists st_i, s_i, st_i', s_i', e, s_e, outs.
  split; [assumption|]. split; [assumption|]. split; [assumption|].
  split; [assumption|]. split; [assumption|]. split; [assumption|].
  intros Hasc. rewrite Hn, Hk in Hst. specialize (Hst Hasc).
  assert (Forall2 (fun lohi o =>
                    handed_over (self_k (self s)) (e_pBack e) lohi
                                (map (map (fun p => power co p B)) (e_pBack o)))
                  (boundaries (sessions_of (self s) sess)) outs) as Hpow.
  { eapply Forall2_impl; [|exact Hst].
    intros [lo hi] o (_ & _ & Hp & _). exact Hp. }
  split; [assumption|].
  intros -> Hone. eapply Forall2_impl; [|exact Hpow].
  intros [lo hi] o Hp. unfold handed_over in *.
  rewrite <- Hp. f_equal.
  rewrite <- (map_id (e_pBack o)) at 1. apply map_ext. intros row.
  rewrite <- (map_id row) at 1. apply map_ext. intros p. symmetry. apply Hone.
Qed.

(** C7 on a run of eight iterations over the two sessions [0:1] and
    [1:2]. *)
Lemma trace_sums_sessions_witness :
  exists (st' : Locals) (s' : World),
    fit_locals Example.climbing Example.y Example.x Example.A Example.w Example.pi0 true 8 Example.tol (Some [0; 1; 2]%Z) 2%float Example.world = Ok (st', s') /\
    iterations st' = 8 /\
    (fit Example.climbing Example.y Example.x Example.A Example.w Example.pi0 true 8 Example.tol (Some [0; 1; 2]%Z) 2%float Example.world
    = Ok ((l_lls st', l_A st', l_w st', l_pi0 st'), s') /\
    Nat.min (Z.to_nat 8) 7 <= iterations st' /\
    iterations st' <= Z.to_nat 8 /\
    exists (st0 : Locals) (s0 : World),
      fit_enter Example.climbing Example.x Example.A Example.w Example.pi0 8 Example.world = Ok (st0, s0) /\
      em_states Example.climbing Example.y Example.x true (sessions_of (self Example.world) (Some [0; 1; 2]%Z)) 2%float
                (iterations st') 0 st0 s0 = Ok (st', s') /\
      forall i, i < iterations st' ->
        exists (st_i : Locals) (s_i : World) (e : EStep) (s_e : World)
               (outs : list EStep),
          em_states Example.climbing Example.y Example.x true (sessions_of (self Example.world) (Some [0; 1; 2]%Z)) 2%float i 0 st0 s0
          = Ok (st_i, s_i) /\
          E_step Example.climbing Example.y (l_A st_i) (l_phi st_i) (l_pi0 st_i)
                 (sessions_of (self Example.world) (Some [0; 1; 2]%Z)) 2%float s_i = Ok (e, s_e) /\
          mapM (session_pass Example.climbing (self s_i) Example.y (l_A st_i) (l_phi st_i) (l_pi0 st_i))
               (boundaries (sessions_of (self Example.world) (Some [0; 1; 2]%Z))) = Ok outs /\
          nth_error (l_lls st') i
          = Some (fold_left (fun acc o => (acc + e_ll o)%float) outs 0%float) /\
          (ascending 0 (sessions_of (self Example.world) (Some [0; 1; 2]%Z)) (Z.of_nat (self_n (self Example.world))) ->
           Forall2 (stitched Example.climbing (self_k (self Example.world)) 2%float e)
                   (boundaries (sessions_of (self Example.world) (Some [0; 1; 2]%Z))) outs)).
Proof.
  do 2 eexists.
  match goal with |- ?P /\ _ => assert P as H by (vm_compute; reflexivity) end.
  split; [exact H|]. split; [reflexivity|].
  apply trace_sums_sessions in H. exact H.
Defined.

(** C4 on a run of two iterations at temperature [B = 1] over the
    default single session. *)
Lemma responsibilities_tempered_witness :
  exists (st' : Locals) (s' : World),
    fit_locals Example.steady Example.y Example.x Example.A Example.w Example.pi0 false 2 Example.tol None 1%float Example.world = Ok (st', s') /\
    iterations st' = 2 /\
    (fit Example.steady Example.y Example.x Example.A Example.w Example.pi0 false 2 Example.tol None 1%float Example.world
    = Ok ((l_lls st', l_A st', l_w st', l_pi0 st'), s') /\
    Nat.min (Z.to_nat 2) 7 <= iterations st' /\
    iterations st' <= Z.to_nat 2 /\
    exists (st0 : Locals) (s0 : World),
      fit_enter Example.steady Example.x Example.A Example.w Example.pi0 2 Example.world = Ok (st0, s0) /\
      em_states Example.steady Example.y Example.x false (sessions_of (self Example.world) None) 1%float
                (iterations st') 0 st0 s0 = Ok (st', s') /\
      forall i, i < iterations st' ->
        exists (st_i : Locals) (s_i : World) (st_i' : Locals) (s_i' : World)
               (e : EStep) (s_e : World) (outs : list EStep),
          em_states Example.steady Example.y Example.x false (sessions_of (self Example.world) None) 1%float i 0 st0 s0
          = Ok (st_i, s_i) /\
          em_states Example.steady Example.y Example.x false (sessions_of (self Example.world) None) 1%float (S i) 0 st0 s0
          = Ok (st_i', s_i') /\
          E_step Example.steady Example.y (l_A st_i) (l_phi st_i) (l_pi0 st_i)
                 (sessions_of (self Example.world) None) 1%float s_i = Ok (e, s_e) /\
          self s_e = self s_i /\
          mapM (session_pass Example.steady (self s_i) Example.y (l_A st_i) (l_phi st_i) (l_pi0 st_i))
               (boundaries (sessions_of (self Example.world) None)) = Ok outs /\
          _updateParams Example.steady Example.y Example.x (e_pBack e) (e_beta e) (e_alpha e) (e_cs e)
                        (l_A st_i) (l_phi st_i) (l_w st_i) false s_e
          = Ok ((l_A st_i', l_w st_i', l_phi st_i', l_pi0 st_i'), s_i') /\
          (ascending 0 (sessions_of (self Example.world) None) (Z.of_nat (self_n (self Example.world))) ->
           Forall2 (fun lohi o =>
                      handed_over (self_k (self Example.world)) (e_pBack e) lohi
                                  (map (map (fun p => power Example.steady p 1%float)) (e_pBack o)))
                   (boundaries (sessions_of (self Example.world) None)) outs /\
           (1%float = 1%float -> (forall p, power Example.steady p 1%float = p) ->
            Forall2 (fun lohi o =>
                       handed_over (self_k (self Example.world)) (e_pBack e) lohi (e_pBack o))
                    (boundaries (sessions_of (self Example.world) None)) outs))).
Proof.
  do 2 eexists.
  match goal with |- ?P /\ _ => assert P as H by (vm_compute; reflexivity) end.
  split; [exact H|]. split; [reflexivity|].
  apply responsibilities_tempered in H. exact H.
Defined.

(** At temperature 1 the stand-in power returns its argument, and on
    the stand-in data the posteriors of the first E step are those of
    the backward pass. *)
Lemma responsibilities_at_unit_temperature :
  (forall p, power Example.steady p 1%float = p) /\
  exists e : EStep,
    E_step Example.steady Example.y Example.A
           [[[0.5; 0.5]; [0.5; 0.5]]; [[0.5; 0.5]; [0.5; 0.5]]]%float
           Example.pi0 [0; 2]%Z 1%float Example.world
    = Ok (e, Example.world) /\
    e_pBack e = [[0.5; 0.5]; [0.5; 0.5]]%float.
Proof.
  split; [intros p; reflexivity|].
  eexists. split; vm_compute; reflexivity.
Qed.

(** ** The objective of [computeVariance] *)

(** Line 295 with [gaussPrior = 0]: the Python quotient [1 / 0]. *)
Lemma prior_scale_zero (nu : Numerics) : prior_scale nu 0 = Raise ZeroDivisionError.
Proof. reflexivity. Qed.

Lemma prior_scale_nonzero (nu : Numerics) (gp : Z) :
  gp <> 0%Z -> prior_scale nu gp = Ok (int_true_div nu 1 (2 * gp ^ 2)).
Proof.
  intros H. unfold prior_scale.
  destruct (2 * gp ^ 2 =? 0)%Z eqn:E; [|reflexivity].
  apply Z.eqb_eq in E. nia.
Qed.

(** Without regressors ([d = 0]) the product [x @ w] is an array of
    shape (n, c - 1): on the stand-in numerics, two observations and two
    categories give every category the probability one half. *)
Example state_phi_without_regressors :
  state_phi example_numerics (mkGLMHMM 2 0 2 1 false 0%float None [] [])
            [[]; []] []
  = Ok [[0.5; 0.5]; [0.5; 0.5]]%float.
Proof. vm_compute. reflexivity. Qed.

(** C1, on the code.  With the default [gaussPrior = 0] the objective
    of [computeVariance] never yields a value: whatever the parameters
    and the data it raises, and on a well-shaped input (two states, one
    regressor, two categories, weights with the [c - 1] free category
    slices) it raises [ZeroDivisionError] at the penalty term, where the
    docstring promises no prior. *)
Theorem objective_default_prior_raises (nu : Numerics) :
  (forall (g : GLMHMM) (params : vec) (y : list Z) (x : mat) (v : float),
      logLikelihood nu g 0 params y x <> Ok v) /\
  opt_log nu (mkGLMHMM 2 1 2 2 false 0%float None [] []) 0
          [[1%float]; [2%float]] [0%Z; 1%Z]
          [[0.5%float; 0.5%float]; [0.5%float; 0.5%float]]
          [[[0.5%float]]; [[0.25%float]]]
  = Raise ZeroDivisionError.
Proof.
  split.
  - intros g params y x v H. unfold logLikelihood in H. inv_ok.
    match goal with H1 : prior_scale _ 0 = Ok _ |- _ =>
      rewrite prior_scale_zero in H1; discriminate H1 end.
  - vm_compute. reflexivity.
Qed.

(** ** Flattening and unflattening the parameters *)

Lemma concat_length_uniform {T : Type} (l : list (list T)) (m : nat) :
  Forall (fun r => length r = m) l -> length (concat l) = length l * m.
Proof.
  induction 1 as [|r l Hr Hl IH]; [reflexivity|].
  simpl. rewrite length_app, IH, Hr. reflexivity.
Qed.

Lemma chunks_concat {T : Type} (l : list (list T)) (m : nat) :
  Forall (fun r => length r = m) l ->
  Npa.chunks m (length l) (concat l) = l.
Proof.
  induction 1 as [|r l Hr Hl IH]; [reflexivity|].
  simpl. rewrite firstn_app, <- Hr, Nat.sub_diag, firstn_O, app_nil_r, firstn_all.
  rewrite skipn_app, Nat.sub_diag, skipn_all. simpl. rewrite Hr, IH. reflexivity.
Qed.

Lemma slice_prefix {T : Type} (a b : list T) :
  Np.slice (a ++ b) 0 (Z.of_nat (length a)) = a.
Proof.
  unfold Np.slice. rewrite !clip_in_range by (rewrite length_app; lia).
  simpl. rewrite Nat2Z.id, Nat.sub_0_r, firstn_app, Nat.sub_diag, firstn_O.
  rewrite app_nil_r. apply firstn_all.
Qed.

Lemma slice_suffix {T : Type} (a b : list T) :
  Np.slice (a ++ b) (Z.of_nat (length a)) (Z.of_nat (length (a ++ b))) = b.
Proof.
  unfold Np.slice. rewrite !clip_in_range by (rewrite length_app; lia).
  rewrite !Nat2Z.id, skipn_app, Nat.sub_diag, skipn_all. simpl.
  rewrite length_app. replace (length a + length b - length a) with (length b) by lia.
  apply firstn_all.
Qed.

Lemma slice_row (k : nat) (row : vec) :
  0 < k -> length row = k ->
  Np.slice row 0 (Z.of_nat k - 1) = firstn (k - 1) row.
Proof.
  intros Hk Hlen. unfold Np.slice. rewrite Hlen.
  rewrite !clip_in_range by lia. simpl. rewrite Nat.sub_0_r. f_equal. lia.
Qed.

Lemma resolve_nonneg (dims : list nat) (size : nat) :
  Npa.resolve (map Z.of_nat dims) size
  = if fold_left Nat.mul dims 1 =? size then Ok dims else Raise ValueError.
Proof.
  unfold Npa.resolve, Npa.known.
  assert (filter (fun z => (z <? 0)%Z) (map Z.of_nat dims) = []) as ->.
  { induction dims as [|a dims IH]; [reflexivity|]. simpl.
    destruct (Z.of_nat a <? 0)%Z eqn:E; [apply Z.ltb_lt in E; lia|exact IH]. }
  assert (filter (fun z => (0 <=? z)%Z) (map Z.of_nat dims) = map Z.of_nat dims)
    as ->.
  { induction dims as [|a dims IH]; [reflexivity|]. simpl.
    destruct (0 <=? Z.of_nat a)%Z eqn:E; [now rewrite IH|apply Z.leb_gt in E; lia]. }
  assert (forall acc,
             fold_left Z.mul (map Z.of_nat dims) (Z.of_nat acc)
             = Z.of_nat (fold_left Nat.mul dims acc)) as Hprod.
  { induction dims as [|a dims IH]; intros acc; [reflexivity|].
    simpl. rewrite <- Nat2Z.inj_mul. apply IH. }
  change 1%Z with (Z.of_nat 1). rewrite Hprod.
  rewrite map_map. rewrite (map_ext _ (fun n => n)) by apply Nat2Z.id.
  rewrite map_id.
  destruct (fold_left Nat.mul dims 1 =? size) eqn:E.
  - apply Nat.eqb_eq in E. rewrite E, Z.eqb_refl. reflexivity.
  - apply Nat.eqb_neq in E.
    destruct (Z.of_nat (fold_left Nat.mul dims 1%nat) =? Z.of_nat size)%Z eqn:E';
      [apply Z.eqb_eq in E'; lia|reflexivity].
Qed.

Lemma reshape2_exact (v : vec) (r c : nat) :
  length v = r * c ->
  Npa.reshape2 v (Z.of_nat r) (Z.of_nat c) = Ok (Npa.chunks c r v).
Proof.
  intros H. unfold Npa.reshape2.
  change [Z.of_nat r; Z.of_nat c] with (map Z.of_nat [r; c]).
  rewrite resolve_nonneg.
  assert ((fold_left Nat.mul [r; c] 1 =? length v) = true) as ->
      by (apply Nat.eqb_eq; simpl; lia).
  reflexivity.
Qed.

Lemma reshape3_mismatch (v : vec) (k d c : nat) :
  length v <> k * d * c ->
  Npa.reshape3 v (Z.of_nat k) (Z.of_nat d) (Z.of_nat c) = Raise ValueError.
Proof.
  intros H. unfold Npa.reshape3.
  change [Z.of_nat k; Z.of_nat d; Z.of_nat c] with (map Z.of_nat [k; d; c]).
  rewrite resolve_nonneg.
  assert ((fold_left Nat.mul [k; d; c] 1 =? length v) = false) as ->
      by (apply Nat.eqb_neq; simpl; lia).
  reflexivity.
Qed.

Lemma reshape3_exact (v : vec) (k d c : nat) :
  length v = k * d * c ->
  Npa.reshape3 v (Z.of_nat k) (Z.of_nat d) (Z.of_nat c)
  = Ok (map (Npa.chunks c d) (Npa.chunks (d * c) k v)).
Proof.
  intros H. unfold Npa.reshape3.
  change [Z.of_nat k; Z.of_nat d; Z.of_nat c] with (map Z.of_nat [k; d; c]).
  rewrite resolve_nonneg.
  assert ((fold_left Nat.mul [k; d; c] 1 =? length v) = true) as ->
      by (apply Nat.eqb_eq; simpl; lia).
  reflexivity.
Qed.

Section Flatten.

Variable g : GLMHMM.
Variables (A : mat) (w : tens).

Hypothesis k_pos : 0 < self_k g.
Hypothesis A_rows : length A = self_k g.
Hypothesis A_cols : Forall (fun row => length row = self_k g) A.

Lemma A_flat_value :
  A_flat g A = concat (map (firstn (self_k g - 1)) A).
Proof.
  unfold A_flat. f_equal. apply map_ext_in. intros row Hrow.
  rewrite Forall_forall in A_cols. apply slice_row; auto.
Qed.

Lemma A_flat_rows :
  Forall (fun r : vec => length r = self_k g - 1) (map (firstn (self_k g - 1)) A).
Proof.
  rewrite Forall_forall in *. intros r Hr. apply in_map_iff in Hr.
  destruct Hr as (row & <- & Hrow). rewrite length_firstn, (A_cols _ Hrow). lia.
Qed.

Lemma A_flat_length : length (A_flat g A) = self_k g * (self_k g - 1).
Proof.
  rewrite A_flat_value, (concat_length_uniform A_flat_rows), length_map.
  f_equal. exact A_rows.
Qed.

(** The transition part of the flat vector, read back: every row gets
    as last entry one minus the sum of the entries kept. *)
Lemma unflatten_A_params (nu : Numerics) :
  unflatten_A nu g (params_flat g A w)
  = Ok (map (fun row => firstn (self_k g - 1) row
                        ++ [(1 - np_sum nu (firstn (self_k g - 1) row))%float]) A).
Proof.
  unfold unflatten_A, params_flat.
  replace (Z.of_nat (self_k g) * (Z.of_nat (self_k g) - 1))%Z
    with (Z.of_nat (length (A_flat g A))) by (rewrite A_flat_length; nia).
  rewrite slice_prefix.
  replace (Z.of_nat (self_k g) - 1)%Z with (Z.of_nat (self_k g - 1)) by lia.
  rewrite reshape2_exact by apply A_flat_length. simpl.
  rewrite A_flat_value.
  assert (Npa.chunks (self_k g - 1) (self_k g)
                     (concat (map (firstn (self_k g - 1)) A))
          = map (firstn (self_k g - 1)) A) as ->.
  { pose proof (chunks_concat A_flat_rows) as Hc.
    replace (length (map (firstn (self_k g - 1)) A)) with (self_k g) in Hc
      by (rewrite length_map; symmetry; exact A_rows).
    exact Hc. }
  f_equal. unfold sum_axis1. rewrite !map_map.
  clear. induction A as [|row rest IH]; [reflexivity|].
  simpl. f_equal. exact IH.
Qed.

End Flatten.

Lemma w_flat_length (k d c : nat) (w : tens) :
  shaped3 k d c w -> length (w_flat w) = k * d * c.
Proof.
  intros [Hk Hw]. unfold w_flat.
  assert (Forall (fun r : vec => length r = c) (concat w)) as Hrows.
  { rewrite Forall_forall in *. intros r Hr. apply in_concat in Hr.
    destruct Hr as (m & Hm & Hr). destruct (Hw _ Hm) as [_ Hc].
    rewrite Forall_forall in Hc. auto. }
  rewrite (concat_length_uniform Hrows).
  assert (Forall (fun m : mat => length m = d) w) as Hd.
  { eapply Forall_impl; [|exact Hw]. intros m [H _]. exact H. }
  f_equal. etransitivity; [exact (concat_length_uniform Hd)|].
  f_equal. exact Hk.
Qed.

Lemma unflatten_w_params (g : GLMHMM) (A : mat) (w : tens) :
  0 < self_k g -> square (self_k g) A ->
  unflatten_w g (params_flat g A w)
  = Npa.reshape3 (w_flat w) (Z.of_nat (self_k g)) (Z.of_nat (self_d g))
                 (Z.of_nat (self_c g) - 1).
Proof.
  intros Hk [HA1 HA2]. unfold unflatten_w, params_flat.
  replace (Z.of_nat (self_k g) * (Z.of_nat (self_k g) - 1))%Z
    with (Z.of_nat (length (A_flat g A)))
    by (rewrite (@A_flat_length g A Hk HA1 HA2); nia).
  rewrite slice_suffix. reflexivity.
Qed.

(** C2, on the code.  For [A] of shape (k, k) and [w] of the documented
    shape (k, d, c), with k, d and c positive, [computeVariance]
    flattens all [c] category slices of [w]: the flat vector has
    [k*(k-1) + k*d*c] entries, not [k*(k-1) + k*d*(c-1)]; the reshape
    of its weight part to (k, d, c-1) raises [ValueError], and so does
    the objective, whatever the data and the prior. *)
Theorem objective_rejects_documented_weights (nu : Numerics) (g : GLMHMM)
        (gaussPrior : Z) (x : mat) (y : list Z) (A : mat) (w : tens) :
  0 < self_k g -> 0 < self_d g -> 0 < self_c g ->
  square (self_k g) A ->
  shaped3 (self_k g) (self_d g) (self_c g) w ->
  length (params_flat g A w)
  = self_k g * (self_k g - 1) + self_k g * self_d g * self_c g /\
  length (params_flat g A w)
  <> self_k g * (self_k g - 1) + self_k g * self_d g * (self_c g - 1) /\
  unflatten_w g (params_flat g A w) = Raise ValueError /\
  opt_log nu g gaussPrior x y A w = Raise ValueError.
Proof.
  intros Hk Hd Hc HA Hw.
  pose proof (@w_flat_length _ _ _ w Hw) as Lw.
  assert (length (params_flat g A w)
          = self_k g * (self_k g - 1) + self_k g * self_d g * self_c g) as L.
  { unfold params_flat. rewrite length_app, Lw.
    destruct HA as [HA1 HA2]. rewrite (@A_flat_length g A Hk HA1 HA2). reflexivity. }
  assert (unflatten_w g (params_flat g A w) = Raise ValueError) as Hraise.
  { rewrite (@unflatten_w_params g A w Hk HA).
    replace (Z.of_nat (self_c g) - 1)%Z with (Z.of_nat (self_c g - 1)) by lia.
    apply reshape3_mismatch. rewrite Lw. nia. }
  split; [exact L|]. split; [rewrite L; nia|]. split; [exact Hraise|].
  unfold opt_log, logLikelihood. destruct HA as [HA1 HA2].
  rewrite (@unflatten_A_params g A w Hk HA1 HA2 nu). simpl.
  rewrite Hraise. reflexivity.
Qed.

(** C2 on two states, one regressor and two categories. *)
Lemma objective_rejects_documented_weights_witness :
    length (params_flat (mkGLMHMM 2 1 2 2 false 0%float None [] [])
                        Example.A Example.w) = 2 * (2 - 1) + 2 * 1 * 2 /\
    length (params_flat (mkGLMHMM 2 1 2 2 false 0%float None [] [])
                        Example.A Example.w) <> 2 * (2 - 1) + 2 * 1 * (2 - 1) /\
    unflatten_w (mkGLMHMM 2 1 2 2 false 0%float None [] [])
                (params_flat (mkGLMHMM 2 1 2 2 false 0%float None [] [])
                             Example.A Example.w) = Raise ValueError /\
    opt_log example_numerics (mkGLMHMM 2 1 2 2 false 0%float None [] []) 1
            Example.x Example.y Example.A Example.w = Raise ValueError.
Proof.
  apply (@objective_rejects_documented_weights
           example_numerics (mkGLMHMM 2 1 2 2 false 0%float None [] []) 1
           Example.x Example.y Example.A Example.w); simpl; try lia.
  - split; [reflexivity|]. repeat constructor.
  - split; [reflexivity|]. repeat constructor.
Defined.

(** ** Further properties of the M step's indicator *)

Lemma wrap_mod (len : nat) (i : Z) :
  (- Z.of_nat len <= i < Z.of_nat len)%Z ->
  Np.wrap len i = Ok (Z.to_nat (i mod Z.of_nat len)).
Proof.
  intros H. unfold Np.wrap.
  destruct (0 <=? i)%Z eqn:E0.
  - apply Z.leb_le in E0.
    assert ((i <? Z.of_nat len)%Z = true) as -> by (apply Z.ltb_lt; lia).
    simpl. rewrite Z.mod_small by lia. reflexivity.
  - apply Z.leb_gt in E0. simpl.
    assert ((- Z.of_nat len <=? i)%Z = true) as -> by (apply Z.leb_le; lia).
    assert ((i <? 0)%Z = true) as -> by (apply Z.ltb_lt; lia).
    simpl. f_equal. f_equal.
    rewrite <- (Z.mod_add i 1 (Z.of_nat len)) by lia.
    rewrite Z.mod_small by lia. lia.
Qed.

Lemma set_each_wraps (cols : nat) (y : list Z) :
  Forall (fun v => - Z.of_nat cols <= v < Z.of_nat cols)%Z y ->
  Np.set_each (Np.zeros2 (length y) cols) y 1%float
  = Ok (map (fun v => Np.update (Np.zeros1 cols)
                                (Z.to_nat (v mod Z.of_nat cols)) 1%float) y).
Proof.
  induction 1 as [|v y Hv Hy IH]; [reflexivity|].
  simpl. unfold Np.zeros2 in IH. rewrite IH.
  unfold Np.set_index, Np.zeros1. rewrite repeat_length, wrap_mod by lia.
  reflexivity.
Qed.

Lemma one_hot_unfold (y : list Z) (m : Z) :
  Np.max y = Ok m -> (0 <= m + 1)%Z ->
  one_hot y = Np.set_each (Np.zeros2 (length y) (Z.to_nat (m + 1))) y 1%float.
Proof.
  intros Hmax Hm. unfold one_hot, astype_int. rewrite Hmax. simpl.
  unfold Np.dim. destruct (m + 1 <? 0)%Z eqn:E; [apply Z.ltb_lt in E; lia|].
  reflexivity.
Qed.

(** The indicator at the edges of its domain: an empty [y] has no
    maximum; a maximum below -1 asks for a negative number of columns;
    a maximum of -1 gives no column to index; and with a non-negative
    maximum [m], entries from [-(m+1)] up are accepted, a negative entry
    [v] marking column [v + m + 1] as numpy's indexing from the end
    does. *)
Theorem one_hot_edges :
  one_hot [] = Raise ValueError /\
  (forall h t, (fold_left Z.max t h < -1)%Z ->
               one_hot (h :: t) = Raise ValueError) /\
  (forall h t, fold_left Z.max t h = (-1)%Z ->
               one_hot (h :: t) = Raise IndexError) /\
  (forall h t,
      let m := fold_left Z.max t h in
      (0 <= m)%Z ->
      Forall (fun v => - (m + 1) <= v)%Z (h :: t) ->
      one_hot (h :: t)
      = Ok (map (fun v => Np.update (Np.zeros1 (Z.to_nat (m + 1)))
                                    (Z.to_nat (v mod (m + 1))) 1%float)
                (h :: t))).
Proof.
  split; [reflexivity|]. split; [|split].
  - intros h t Hm. unfold one_hot, astype_int. simpl.
    unfold Np.dim.
    destruct (fold_left Z.max t h + 1 <? 0)%Z eqn:E; [reflexivity|].
    apply Z.ltb_ge in E. lia.
  - intros h t Hm. unfold one_hot, astype_int. simpl. rewrite Hm. simpl.
    unfold Np.set_index, Np.wrap. simpl.
    destruct ((0 <=? h) && (h <? 0))%Z eqn:E1.
    { apply andb_true_iff in E1. destruct E1 as [E1 E2].
      apply Z.leb_le in E1. apply Z.ltb_lt in E2. lia. }
    destruct ((0 <=? h) && (h <? 0))%Z eqn:E2; [discriminate|].
    reflexivity.
  - intros h t m Hm Hall.
    rewrite (@one_hot_unfold (h :: t) m eq_refl) by lia.
    pose proof (fold_max_ge t h) as [Hh Ht]. fold m in Hh, Ht.
    rewrite set_each_wraps.
    + rewrite Z2Nat.id by lia. reflexivity.
    + rewrite Z2Nat.id by lia.
      assert (Forall (fun v => v <= m)%Z (h :: t)) as Hle
          by (constructor; assumption).
      rewrite Forall_forall in *. intros v Hv.
      specialize (Hall v Hv). specialize (Hle v Hv). lia.
Qed.

(** [y = [2; -1; 0]]: three columns, the entry -1 marks the last. *)
Example one_hot_negative_entry :
  one_hot [2; -1; 0]%Z
  = Ok [[0; 0; 1]; [0; 0; 1]; [1; 0; 0]]%float.
Proof. reflexivity. Qed.

(** ** Round trips through the flat parameter vector *)

Lemma row_split (k : nat) (row : vec) (last : float) :
  0 < k -> length row = k ->
  (nth_error row (k - 1) = Some last <-> firstn (k - 1) row ++ [last] = row).
Proof.
  intros Hk Hlen. split.
  - intros Hnth. rewrite <- (firstn_skipn (k - 1) row) at 2. f_equal.
    pose proof (nth_error_split row (k - 1) Hnth) as (l1 & l2 & Hrow & Hl1).
    rewrite Hrow, skipn_app, Hl1, Nat.sub_diag, skipn_all2 by lia. simpl.
    assert (length l2 = 0) as Hl2.
    { rewrite Hrow, length_app in Hlen. simpl in Hlen. lia. }
    destruct l2; [reflexivity|discriminate].
  - intros Hrow. rewrite <- Hrow.
    rewrite nth_error_app2 by (rewrite length_firstn; lia).
    rewrite length_firstn. replace (k - 1 - Nat.min (k - 1) (length row)) with 0 by lia.
    reflexivity.
Qed.

(** Flattening [A] and reading it back returns [A] exactly when every
    row of [A] ends in one minus the sum of its first [k - 1] entries as
    numpy computes that sum, in whatever order it accumulates; the
    weights appended play no part. *)
Theorem transitions_round_trip (nu : Numerics) (g : GLMHMM) (A : mat) (w : tens) :
  0 < self_k g -> square (self_k g) A ->
  (unflatten_A nu g (params_flat g A w) = Ok A <-> rows_closed nu (self_k g) A).
Proof.
  intros Hk [HA1 HA2].
  rewrite (@unflatten_A_params g A w Hk HA1 HA2 nu). unfold rows_closed.
  clear HA1. induction A as [|row rest IH].
  - split; [constructor | reflexivity].
  - inversion HA2 as [|? ? Hrow Hrest]; subst. specialize (IH Hrest).
    simpl. split.
    + intros H. injection H as H1 H2. constructor.
      * apply (@row_split (self_k g) row _ Hk Hrow). exact H1.
      * apply IH. rewrite H2. reflexivity.
    + intros H. inversion H as [|? ? H1 H2]; subst.
      apply (@row_split (self_k g) row _ Hk Hrow) in H1.
      apply IH in H2. injection H2 as H2. rewrite H1, H2. reflexivity.
Qed.

(** The round trip on the two-state example. *)
Lemma transitions_round_trip_witness :
  unflatten_A example_numerics (mkGLMHMM 2 1 2 2 false 0%float None [] [])
              (params_flat (mkGLMHMM 2 1 2 2 false 0%float None [] [])
                           Example.A Example.w) = Ok Example.A
  <-> rows_closed example_numerics 2 Example.A.
Proof.
  apply (@transitions_round_trip
           example_numerics
           (mkGLMHMM 2 1 2 2 false 0%float None [] []) Example.A Example.w).
  - simpl. lia.
  - split; [reflexivity|]. repeat constructor.
Defined.

(** Rows that sum to one do not suffice: [tight_row] sums to one, both
    exactly and as floats, and with the sum of two entries as their
    binary64 sum a matrix of three such rows does not survive the round
    trip (its last column comes back as zero). *)
Lemma stochastic_rows_may_not_round_trip :
  exact_sum (-112) tight_row = Some (2 ^ 112)%Z /\
  sum_left tight_row = 1%float /\
  (forall a b : float, np_sum example_numerics [a; b] = (0 + a + b)%float) /\
  square 3 [tight_row; tight_row; tight_row] /\
  unflatten_A example_numerics (mkGLMHMM 1 1 2 3 false 0%float None [] [])
              (params_flat (mkGLMHMM 1 1 2 3 false 0%float None [] [])
                           [tight_row; tight_row; tight_row] [])
  <> Ok [tight_row; tight_row; tight_row].
Proof.
  split; [vm_compute; reflexivity|]. split; [vm_compute; reflexivity|].
  split; [intros a b; reflexivity|].
  split; [split; [reflexivity | repeat constructor]|].
  vm_compute. intros H. discriminate H.
Qed.

Lemma concat_map_concat {T : Type} (l : list (list (list T))) :
  concat (map (@concat T) l) = concat (concat l).
Proof.
  induction l as [|m l IH]; [reflexivity|].
  simpl. rewrite concat_app, IH. reflexivity.
Qed.

Lemma chunks_concat_n {T : Type} (l : list (list T)) (m n : nat) :
  n = length l -> Forall (fun r => length r = m) l ->
  Npa.chunks m n (concat l) = l.
Proof. intros ->. apply chunks_concat. Qed.

(** When [w] is handed over with only its [c - 1] free category
    slices, the weight part of the flat vector reads back as [w]. *)
Theorem weights_round_trip (g : GLMHMM) (A : mat) (w : tens) :
  0 < self_k g -> 0 < self_c g -> square (self_k g) A ->
  shaped3 (self_k g) (self_d g) (self_c g - 1) w ->
  unflatten_w g (params_flat g A w) = Ok w.
Proof.
  intros Hk Hc HA Hw. rewrite (@unflatten_w_params g A w Hk HA).
  replace (Z.of_nat (self_c g) - 1)%Z with (Z.of_nat (self_c g - 1)) by lia.
  rewrite reshape3_exact by (apply w_flat_length; exact Hw).
  destruct Hw as [Hw1 Hw2]. unfold w_flat. f_equal.
  assert (Forall (fun m : mat => length m = self_d g) w) as Hd.
  { eapply Forall_impl; [|exact Hw2]. intros m [H _]. exact H. }
  assert (Forall (fun r : vec => length r = self_c g - 1) (concat w)) as Hrows.
  { rewrite Forall_forall in *. intros r Hr. apply in_concat in Hr.
    destruct Hr as (m & Hm & Hr). destruct (Hw2 _ Hm) as [_ Hcc].
    rewrite Forall_forall in Hcc. auto. }
  assert (Npa.chunks (self_d g * (self_c g - 1)) (self_k g) (concat (concat w))
          = map (@concat float) w) as ->.
  { etransitivity;
      [exact (f_equal (Npa.chunks _ _) (eq_sym (concat_map_concat w)))|].
    apply chunks_concat_n; [rewrite length_map; symmetry; exact Hw1|].
    rewrite Forall_forall in *. intros r Hr. apply in_map_iff in Hr.
    destruct Hr as (m & <- & Hm). destruct (Hw2 _ Hm) as [Hmd Hmc].
    rewrite (concat_length_uniform Hmc), Hmd. reflexivity. }
  rewrite map_map. rewrite <- (map_id w) at 2. apply f_equal. apply map_ext_in.
  intros m Hm. rewrite Forall_forall in Hw2. destruct (Hw2 _ Hm) as [Hmd Hmc].
  apply chunks_concat_n; [symmetry; exact Hmd | exact Hmc].
Qed.

(** The weight round trip on two states with one free category slice. *)
Lemma weights_round_trip_witness :
  unflatten_w (mkGLMHMM 2 1 2 2 false 0%float None [] [])
              (params_flat (mkGLMHMM 2 1 2 2 false 0%float None [] [])
                           Example.A [[[0.5%float]]; [[0.25%float]]])
  = Ok [[[0.5%float]]; [[0.25%float]]].
Proof.
  apply (@weights_round_trip
           (mkGLMHMM 2 1 2 2 false 0%float None [] []) Example.A
           [[[0.5%float]]; [[0.25%float]]]).
  - simpl. lia.
  - simpl. lia.
  - split; [reflexivity|]. repeat constructor.
  - split; [reflexivity|]. repeat constructor.
Defined.

(** ** Further properties of [fit] *)

(** Without iterations: a negative [maxiter] is refused when the trace
    is allocated; [maxiter = 0] returns an empty trace and the
    parameters as given, provided the initial emission probabilities can
    be computed, and only [self.pi0] is written. *)
Theorem fit_without_iterations (co : Collaborators) (y : list Z) (x A : mat)
        (w : tens) (pi0 : option vec) (fis : bool) (tol : float)
        (sess : option (list Z)) (B : float) (s : World) :
  (forall maxiter, (maxiter < 0)%Z ->
     fit co y x A w pi0 fis maxiter tol sess B s = Raise ValueError) /\
  (forall phi, initial_phi co (self s) x w = Ok phi ->
     exists s',
       fit co y x A w pi0 fis 0 tol sess B s = Ok (([], A, w, pi0), s') /\
       self_pi0 (self s') = pi0 /\
       self_w (self s') = self_w (self s) /\
       self_phi (self s') = self_phi (self s)).
Proof.
  split.
  - intros maxiter Hneg. unfold fit, fit_locals, fit_enter. simpl.
    unfold Np.dim. apply Z.ltb_lt in Hneg. rewrite Hneg. reflexivity.
  - intros phi Hphi. unfold fit, fit_locals, fit_enter. simpl.
    match goal with |- context [initial_phi co ?g' x w] =>
      change (initial_phi co g' x w) with (initial_phi co (self s) x w) end.
    rewrite Hphi. simpl.
    eexists. split; [reflexivity|]. simpl. auto.
Qed.

(** The lagged rule cannot fire before index 6: a call that returns
    has run [maxiter] passes or at least seven. *)
Theorem fit_runs_seven_passes (co : Collaborators) (y : list Z) (x A : mat)
        (w : tens) (pi0 : option vec) (fis : bool) (maxiter : Z) (tol : float)
        (sess : option (list Z)) (B : float) (s : World)
        (st' : Locals) (s' : World) :
  fit_locals co y x A w pi0 fis maxiter tol sess B s = Ok (st', s') ->
  Nat.min (Z.to_nat maxiter) 7 <= iterations st'.
Proof.
  intros H. apply fit_locals_run in H.
  destruct H as (st0 & s0 & N & _ & _ & HN & Hle & _ & _ & Htrue).
  rewrite HN.
  destruct (Nat.lt_ge_cases N (Z.to_nat maxiter)) as [Hlt | Hge]; [|lia].
  specialize (Htrue Hlt). unfold stop_rule in Htrue.
  apply andb_true_iff in Htrue. destruct Htrue as [H5 _].
  apply Nat.ltb_lt in H5. lia.
Qed.

Lemma fit_runs_seven_passes_witness :
  exists (st' : Locals) (s' : World),
    fit_locals Example.steady Example.y Example.x Example.A Example.w
               Example.pi0 false 10 Example.tol None 1%float Example.world
    = Ok (st', s') /\
    Nat.min (Z.to_nat 10) 7 <= iterations st'.
Proof.
  do 2 eexists.
  match goal with |- ?P /\ _ => assert P as H by (vm_compute; reflexivity) end.
  split; [exact H|]. apply fit_runs_seven_passes in H. exact H.
Defined.

Lemma mapM_cons_Ok {T U : Type} (f : T -> result U) (a : T) (l : list T)
      (out : list U) :
  mapM f (a :: l) = Ok out ->
  exists b bs, f a = Ok b /\ mapM f l = Ok bs /\ out = b :: bs.
Proof.
  change (mapM f (a :: l)) with (b <- f a ;; bs <- mapM f l ;; Ok (b :: bs)).
  destruct (f a) as [b | e]; simpl; [|discriminate].
  destruct (mapM f l) as [bs | e]; simpl; [|discriminate].
  intros H. injection H as <-. eauto.
Qed.

Lemma mapM_Forall {T U : Type} (f : T -> result U) (P : U -> Prop)
      (l : list T) (out : list U) :
  (forall a b, f a = Ok b -> P b) ->
  mapM f l = Ok out -> length out = length l /\ Forall P out.
Proof.
  intros HP. revert out. induction l as [|a l IH]; intros out H.
  - simpl in H. injection H as <-. split; [reflexivity|constructor].
  - apply mapM_cons_Ok in H. destruct H as (b & bs & Hb & Hbs & ->).
    destruct (IH _ Hbs) as [IH1 IH2].
    split; [simpl; congruence|]. constructor; eauto.
Qed.

(** The emission probabilities [fit] starts from have shape (n, k, c). *)
Theorem initial_phi_shape (co : Collaborators) (g : GLMHMM) (x : mat)
        (w : tens) (phi : tens) :
  initial_phi co g x w = Ok phi ->
  shaped3 (self_n g) (self_k g) (self_c g) phi.
Proof.
  unfold initial_phi. intros H.
  eapply mapM_Forall with
    (P := fun m : mat => length m = self_k g /\
                         Forall (fun r => length r = self_c g) m) in H.
  - destruct H as [H1 H2]. rewrite length_seq in H1. split; assumption.
  - intros i m Hm.
    eapply mapM_Forall with (P := fun r : vec => length r = self_c g) in Hm.
    + destruct Hm as [H1 H2]. rewrite length_seq in H1. split; assumption.
    + intros zi r Hr. inv_ok. eapply broadcast_length. eassumption.
Qed.

Lemma initial_phi_shape_witness :
  shaped3 2 2 2 [[[0.5; 0.5]; [0.5; 0.5]]; [[0.5; 0.5]; [0.5; 0.5]]]%float.
Proof.
  apply (@initial_phi_shape Example.steady (self Example.world)
                            Example.x Example.w).
  vm_compute. reflexivity.
Defined.

(** ** Further properties of the E step, the M step and the objective *)

Lemma clip_le (len : nat) (i : Z) : Np.clip len i <= len.
Proof.
  unfold Np.clip. destruct (i <? 0)%Z eqn:E.
  - apply Z.ltb_lt in E. lia.
  - lia.
Qed.

Lemma splice_length_any {T : Type} (l : list T) (a b : nat) (v : list T) :
  a <= length l -> b <= length l -> length v = b - a ->
  length (Np.splice l a b v) = length l.
Proof.
  intros Ha Hb Hv. unfold Np.splice.
  rewrite !length_app, length_firstn, length_skipn. lia.
Qed.

Lemma set_slice_length {T : Type} (l : list T) (lo hi : Z) (v l' : list T) :
  Np.set_slice l lo hi v = Ok l' -> length l' = length l.
Proof.
  unfold Np.set_slice. intros H. inv_ok.
  apply splice_length_any; try apply clip_le.
  eapply broadcast_length. eassumption.
Qed.

Lemma set_slice2_length {T : Type} (k : nat) (l : list (list T)) (lo hi : Z)
      (v l' : list (list T)) :
  Np.set_slice2 k l lo hi v = Ok l' -> length l' = length l.
Proof.
  unfold Np.set_slice2. intros H. inv_ok.
  apply splice_length_any; try apply clip_le.
  eapply broadcast2_length. eassumption.
Qed.

Lemma fold_sessions_full_length (co : Collaborators) (y : list Z) (A : mat)
      (phi : tens) (pi0 : option vec) (B : float) (n : nat)
      (pairs : list (Z * Z)) (e0 : EStep) (s0 : World) (e : EStep) (s' : World) :
  fold_sessions (session_step co y A phi pi0 B) pairs e0 s0 = Ok (e, s') ->
  full_length n e0 -> full_length n e.
Proof.
  revert e0 s0. induction pairs as [|[lo hi] pairs IH]; intros e0 s0 Hf Hfull.
  - simpl in Hf. inv_ok. assumption.
  - rewrite fold_sessions_cons in Hf.
    destruct (session_step co y A phi pi0 B e0 (lo, hi) s0) as [[e1 s1] | err] eqn:H1;
      [|discriminate].
    apply session_step_inv in H1.
    destruct H1 as (_ & o & _ & _ & S1 & S2 & S3 & S4 & S5).
    apply IH in Hf; [assumption|].
    destruct Hfull as (L1 & L2 & L3 & L4 & L5).
    apply set_slice2_length in S1, S3, S4. apply set_slice_length in S2, S5.
    unfold full_length.
    repeat split; (etransitivity; [eassumption | assumption]).
Qed.

(** The E step reads the object and writes nothing to it, and whatever
    the session boundaries (out of order, overlapping, negative, beyond
    the data) the arrays it returns keep their [n] rows. *)
Theorem E_step_keeps_shape (co : Collaborators) (y : list Z) (A : mat)
        (phi : tens) (pi0 : option vec) (sess : list Z) (B : float)
        (s : World) (e : EStep) (s' : World) :
  E_step co y A phi pi0 sess B s = Ok (e, s') ->
  self s' = self s /\ full_length (self_n (self s)) e.
Proof.
  intros H. pose proof H as Hw. apply E_step_world in Hw.
  split; [exact (proj1 Hw)|].
  unfold E_step, get_self in H. simpl in H.
  eapply fold_sessions_full_length; [exact H|apply e_init_full_length].
Qed.

Lemma E_step_keeps_shape_witness :
  exists (e : EStep),
    E_step Example.steady Example.y Example.A [] Example.pi0
           [2; -5; 1; 7]%Z 1%float Example.world = Ok (e, Example.world) /\
    full_length 2 e.
Proof.
  eexists.
  match goal with |- ?P /\ _ => assert P as H by (vm_compute; reflexivity) end.
  split; [exact H|]. apply E_step_keeps_shape in H. exact (proj2 H).
Defined.

(** With fewer than two session boundaries no session is visited: in
    a call of [fit] that reaches its [return], every pass the loop ran
    (those below the loop variable's count, at least seven unless
    [maxiter] is smaller) recorded a log-likelihood of zero and handed
    all-zero responsibilities to the M step. *)
Theorem fit_without_sessions (co : Collaborators) (y : list Z) (x A : mat)
        (w : tens) (pi0 : option vec) (fis : bool) (maxiter : Z) (tol : float)
        (sess : list Z) (B : float) (s : World)
        (st' : Locals) (s' : World) :
  length sess <= 1 ->
  fit_locals co y x A w pi0 fis maxiter tol (Some sess) B s = Ok (st', s') ->
  fit co y x A w pi0 fis maxiter tol (Some sess) B s
  = Ok ((l_lls st', l_A st', l_w st', l_pi0 st'), s') /\
  Nat.min (Z.to_nat maxiter) 7 <= iterations st' /\
  iterations st' <= Z.to_nat maxiter /\
  exists (st0 : Locals) (s0 : World),
    fit_enter co x A w pi0 maxiter s = Ok (st0, s0) /\
    em_states co y x fis sess B (iterations st') 0 st0 s0 = Ok (st', s') /\
    forall i, i < iterations st' ->
      nth_error (l_lls st') i = Some 0%float /\
      exists (st_i : Locals) (s_i : World) (st_i' : Locals) (s_i' : World),
        em_states co y x fis sess B i 0 st0 s0 = Ok (st_i, s_i) /\
        em_states co y x fis sess B (S i) 0 st0 s0 = Ok (st_i', s_i') /\
        _updateParams co y x
                      (Np.zeros2 (self_n (self s)) (self_k (self s)))
                      (Np.zeros2 (self_n (self s)) (self_k (self s)))
                      (Np.zeros2 (self_n (self s)) (self_k (self s)))
                      (Np.zeros1 (self_n (self s)))
                      (l_A st_i) (l_phi st_i) (l_w st_i) fis s_i
        = Ok ((l_A st_i', l_w st_i', l_phi st_i', l_pi0 st_i'), s_i').
Proof.
  intros Hlen H.
  pose proof (fit_of_locals _ _ _ _ _ _ _ _ _ _ _ _ H) as Hfit.
  pose proof (fit_locals_bounds _ _ _ _ _ _ _ _ _ _ _ _ H) as [Hlo Hhi].
  apply fit_locals_history in H.
  destruct H as (st0 & s0 & Henter & Hrun & Hall).
  simpl in Hrun, Hall.
  split; [exact Hfit|]. split; [exact Hlo|]. split; [exact Hhi|].
  exists st0, s0. split; [assumption|]. split; [assumption|].
  intros i Hi. destruct (Hall i Hi)
    as (st_i & s_i & st_i' & s_i' & e & s_e & H1 & H2 & H3 & _ & H5 & H6 & Hn & Hk).
  assert (boundaries sess = []) as Hb.
  { destruct sess as [|b [|b' rest]]; try reflexivity. simpl in Hlen. lia. }
  unfold E_step, get_self in H3. simpl in H3. rewrite Hb in H3. simpl in H3.
  injection H3 as He Hs. subst e s_e.
  unfold e_init in *. simpl in *. rewrite Hn, Hk in H5.
  split; [assumption|]. exists st_i, s_i, st_i', s_i'.
  split; [assumption|]. split; assumption.
Qed.

Lemma fit_without_sessions_witness :
  exists (st' : Locals) (s' : World),
    fit_locals Example.steady Example.y Example.x Example.A Example.w
               Example.pi0 false 3 Example.tol (Some [0%Z]) 1%float
               Example.world
    = Ok (st', s') /\
    iterations st' = 3 /\
    forall i, i < 3 -> nth_error (l_lls st') i = Some 0%float.
Proof.
  do 2 eexists.
  match goal with |- ?P /\ _ => assert P as H by (vm_compute; reflexivity) end.
  split; [exact H|]. split; [reflexivity|].
  apply fit_without_sessions in H; [|simpl; lia].
  destruct H as (_ & _ & _ & st0 & s0 & _ & _ & Hall).
  intros i Hi. exact (proj1 (Hall i Hi)).
Defined.

(** The objective needs an observation: on an empty [y] it raises,
    whatever the parameters, the inputs and the prior. *)
Theorem objective_needs_observations (nu : Numerics) (g : GLMHMM)
        (gaussPrior : Z) (params : vec) (x : mat) (v : float) :
  logLikelihood nu g gaussPrior params [] x <> Ok v.
Proof.
  intros H. unfold logLikelihood in H. inv_ok.
  match goal with H1 : emission _ [] 0 = Ok _ |- _ =>
    unfold emission in H1; simpl in H1; discriminate H1 end.
Qed.

(** The penalty sees [gaussPrior] through its square only: the
    objective is the same for [gaussPrior] and [- gaussPrior]. *)
Theorem objective_prior_sign (nu : Numerics) (g : GLMHMM) (gaussPrior : Z)
        (params : vec) (y : list Z) (x : mat) :
  logLikelihood nu g (- gaussPrior) params y x
  = logLikelihood nu g gaussPrior params y x.
Proof.
  unfold logLikelihood, prior_scale.
  replace ((- gaussPrior) ^ 2)%Z with (gaussPrior ^ 2)%Z by nia.
  reflexivity.
Qed.
